(** * Hotplate: a shallow embedding of [src/main.cpp]

    The program relaxes a fixed 10x10 plate of IEEE-754 binary64
    temperatures.  Temperatures are Rocq's primitive floats (binary64,
    round to nearest even, as the C++ [double] of the program), a plate is
    a list of rows, and the two local arrays of [main] live in a small
    store indexed by their names, so that a function which receives two
    array parameters really reads one cell of the store and writes
    another. *)

From Stdlib Require Import ZArith Lia Bool Ascii String DecimalString Floats.
From stdpp Require Import base tactics option list.

Local Open Scope list_scope.

(** ** Constants of the program *)

Definition PLATE_SIZE : nat := 10.
Definition INITIAL_TEMP : float := 100%float.
(** [0.1] is no binary64 number: the compiler takes the nearest one. *)
Definition HEAT_EPSILON : float := 0x1.999999999999ap-4%float.
Definition OUTPUT_PRECISION : nat := 3.
Definition OUTPUT_WIDTH : nat := 9.
Definition ITERATION_LIMIT : Z := 999999%Z.
Definition DESIRED_ITERATIONS : nat := 3.

(** ** Plates and the store *)

(** [double a[PLATE_SIZE][PLATE_SIZE]]: a list of rows. *)
Abbreviation plate := (list (list float)).

(** The shape every array of the program has. *)
Definition well_sized (p : plate) : bool :=
  (length p =? PLATE_SIZE)%nat
  && forallb (fun r : list float => (length r =? PLATE_SIZE)%nat) p.

(** [a[i][j]] as an rvalue. The program never indexes out of range; the
    model returns [+0] there. *)
Definition cell (p : plate) (i j : nat) : float :=
  match p !! i with
  | Some r => default 0%float (r !! j)
  | None => 0%float
  end.

(** [a[i][j] = v]. *)
Definition store_cell (p : plate) (i j : nat) (v : float) : plate :=
  alter (fun r : list float => <[j := v]> r) i p.

(** The two local arrays of [main], and the memory that holds them. *)
Inductive array : Set := oldHeatDist | newHeatDist.

Record memory : Type := Memory { old_plate : plate; new_plate : plate }.

Definition load (a : array) (m : memory) : plate :=
  match a with
  | oldHeatDist => old_plate m
  | newHeatDist => new_plate m
  end.

Definition store (a : array) (p : plate) (m : memory) : memory :=
  match a with
  | oldHeatDist => Memory p (new_plate m)
  | newHeatDist => Memory (old_plate m) p
  end.

(** [a[i][j] = v] for the array named [a]. *)
Definition assign (a : array) (i j : nat) (v : float) (m : memory) : memory :=
  store a (store_cell (load a m) i j v) m.

(** ** Loops *)

(** [for (int i = lo; i < hi; i++) body], for a body that neither breaks
    nor returns. *)
Definition for_loop {St : Type} (lo hi : nat) (body : nat -> St -> St) (s : St) : St :=
  foldl (fun acc i => body i acc) s (seq lo (hi - lo)).

(** The same loop for a body that may [return r]: the first iteration
    that returns ends the loop. *)
Fixpoint first_return {R : Type} (body : nat -> option R) (idx : list nat) : option R :=
  match idx with
  | [] => None
  | i :: rest =>
      match body i with
      | Some r => Some r
      | None => first_return body rest
      end
  end.

Definition for_return {R : Type} (lo hi : nat) (body : nat -> option R) : option R :=
  first_return body (seq lo (hi - lo)).

(** ** The numeric functions *)

Definition InitPlate (passedHeatDist : array) (m : memory) : memory :=
  for_loop 0 PLATE_SIZE (fun i =>
    for_loop 0 PLATE_SIZE (fun j m =>
      if ((i =? 0) || (i =? PLATE_SIZE - 1))%nat then
        if ((0 <? j) && (j <? PLATE_SIZE - 1))%nat then
          assign passedHeatDist i j INITIAL_TEMP m
        else
          assign passedHeatDist i j 0%float m
      else
        assign passedHeatDist i j 0%float m)) m.

(** [fabs(newHeatDist[i][j] - oldHeatArray[i][j]) > epsilonVal] *)
Definition exceeds (epsilonVal old_v new_v : float) : bool :=
  (epsilonVal <? abs (new_v - old_v))%float.

Definition StateChanged (oldHeatArray newHeatDist : array) (epsilonVal : float)
    (m : memory) : bool :=
  match
    for_return 1 (PLATE_SIZE - 1) (fun i =>
      for_return 1 (PLATE_SIZE - 1) (fun j =>
        if exceeds epsilonVal (cell (load oldHeatArray m) i j) (cell (load newHeatDist m) i j)
        then Some true else None))
  with
  | Some r => r
  | None => false
  end.

(** [(top + left + right + bottom) / 4], additions from left to right. *)
Definition average4 (top left right bottom : float) : float :=
  ((((top + left) + right) + bottom) / 4)%float.

Definition UpdateTemps (inputHeatDist outputHeatDist : array) (m : memory) : memory :=
  for_loop 1 (PLATE_SIZE - 1) (fun i =>
    for_loop 1 (PLATE_SIZE - 1) (fun j m =>
      let topNeighbor := cell (load inputHeatDist m) (i - 1) j in
      let leftNeighbor := cell (load inputHeatDist m) i (j - 1) in
      let rightNeighbor := cell (load inputHeatDist m) i (j + 1) in
      let bottomNeighbor := cell (load inputHeatDist m) (i + 1) j in
      assign outputHeatDist i j
        (average4 topNeighbor leftNeighbor rightNeighbor bottomNeighbor) m)) m.

Definition TransferValues (sourceArray destArray : array) (m : memory) : memory :=
  for_loop 0 PLATE_SIZE (fun i =>
    for_loop 0 PLATE_SIZE (fun j m =>
      assign destArray i j (cell (load sourceArray m) i j) m)) m.

(** ** Text output *)

Local Open Scope string_scope.

(** What has been written to a stream so far. *)
Definition ostream : Type := string.

Definition endl : string := String "010"%char EmptyString.
Definition dquote : string := String "034"%char EmptyString.

(** The last [k] decimal digits of [n], leading zeros kept. *)
Fixpoint last_digits (k : nat) (n : Z) : string :=
  match k with
  | O => EmptyString
  | S k' =>
      last_digits k' (n / 10)%Z
      ++ String (ascii_of_nat (48 + Z.to_nat (n mod 10)%Z)) EmptyString
  end.

(** [m * 10^prec * 2^e] rounded to the nearest integer, ties to even. *)
Definition scaled_round (prec : nat) (m : positive) (e : Z) : Z :=
  (let num := Z.pos m * 10 ^ Z.of_nat prec in
   if 0 <=? e then num * 2 ^ e
   else
     let den := 2 ^ (- e) in
     let q := num / den in
     let r := num mod den in
     if 2 * r <? den then q
     else if den <? 2 * r then q + 1
     else if Z.even q then q else q + 1)%Z.

Definition sign_text (s : bool) : string := if s then "-" else EmptyString.

(** [stream << x] for a [double] on a stream in [fixed] notation with
    [setprecision(prec)] and no field width: the text of [printf("%.*f")],
    the decimal expansion of the exact binary value rounded to [prec]
    digits in the current rounding mode (to nearest, ties to even).
    Primitive floats have one NaN and keep no sign for it. The program
    reads no NaN ([>>] does not accept the text), so a NaN in a cell
    comes from [inf + -inf] in [UpdateTemps]: on x86-64 that is the
    default NaN, whose sign bit is set, the additions and the division
    that follow keep it, and the C library prints it as [-nan]. *)
Definition fixed_text (prec : nat) (x : float) : string :=
  match Prim2SF x with
  | S754_zero s => sign_text s ++ "0." ++ last_digits prec 0
  | S754_infinity s => sign_text s ++ "inf"
  | S754_nan => "-nan"
  | S754_finite s m e =>
      let n := scaled_round prec m e in
      sign_text s
      ++ NilZero.string_of_uint (N.to_uint (Z.to_N (n / 10 ^ Z.of_nat prec)%Z))
      ++ "." ++ last_digits prec n
  end.

Fixpoint spaces (k : nat) : string :=
  match k with
  | O => EmptyString
  | S k' => String " "%char (spaces k')
  end.

(** [setw(width)] with the default fill and adjustment: blanks in front
    of a text shorter than [width], nothing cut from a longer one. *)
Definition setw (width : nat) (text : string) : string :=
  spaces (width - String.length text) ++ text.

Definition OutputPlate (passedHeatDist : plate) (outputStream : ostream) : ostream :=
  for_loop 0 PLATE_SIZE (fun i outputStream =>
    let outputStream :=
      for_loop 0 PLATE_SIZE (fun j outputStream =>
        let outputStream :=
          outputStream ++ setw OUTPUT_WIDTH (fixed_text OUTPUT_PRECISION (cell passedHeatDist i j)) in
        if negb (j =? PLATE_SIZE - 1)%nat then outputStream ++ "," else outputStream)
      outputStream in
    outputStream ++ endl) outputStream.

(** ** Files and the console *)

(** One field of [Inputplate.txt] as [>>] meets it: a number that
    converts to a [double], a field that is no number, or a number beyond
    the range of [double]. *)
Inductive token : Type :=
  | number (v : float)
  | malformed
  | out_of_range (negative : bool).

Definition DBL_MAX : float := 0x1.fffffffffffffp+1023.

(** Whether the extraction of the field succeeds. *)
Definition converts (t : token) : bool :=
  match t with
  | number _ => true
  | malformed | out_of_range _ => false
  end.

(** What the extraction of the field stores in its operand: the number;
    zero for a field that is no number; the largest finite [double], with
    the sign of the field, for a number out of range. *)
Definition stored (t : token) : float :=
  match t with
  | number v => v
  | malformed => 0%float
  | out_of_range negative => if negative then (- DBL_MAX)%float else DBL_MAX
  end.

(** The part of the outside world the program touches: what it has printed
    on [cout], whether [Hotplate.csv] can be opened for writing and what
    was written to it, and [Inputplate.txt], absent when it cannot be
    opened, otherwise the fields that extraction meets in it, in order. *)
Record world : Type := World {
  cout : ostream;
  csv_opens : bool;
  Hotplate_csv : option string;
  Inputplate_txt : option (list token)
}.

Definition print (text : string) (w : world) : world :=
  World (cout w ++ text) (csv_opens w) (Hotplate_csv w) (Inputplate_txt w).

Definition ExportPlateToCSV (passedHeatDist : array) (m : memory) (w : world) : Z * world :=
  if negb (csv_opens w) then
    (1%Z, print ("Could not open file Hotplate.csv" ++ endl) w)
  else
    let csvFileStream := OutputPlate (load passedHeatDist m) EmptyString in
    (0%Z, World (cout w) (csv_opens w) (Some csvFileStream) (Inputplate_txt w)).

(** [inputTextFileStream >> passedHeatDist[i][j]]. With a field left, its
    value is stored in the cell, and a field that does not convert sets
    the fail bit after the store. At the end of the file the stream fails
    and the cell is not written. A stream that has failed stays so and no
    later extraction writes a cell: the fields left are dropped. *)
Definition extract (a : array) (i j : nat) (st : list token * memory) : list token * memory :=
  match st.1 with
  | t :: rest => (if converts t then rest else [], assign a i j (stored t) st.2)
  | [] => ([], st.2)
  end.

Definition InitPlateFromTxt (passedHeatDist : array) (m : memory) (w : world)
    : Z * memory * world :=
  match Inputplate_txt w with
  | None => (1%Z, m, print ("Could not open file numFile.txt." ++ endl) w)
  | Some fields =>
      let st :=
        for_loop 0 PLATE_SIZE (fun i =>
          for_loop 0 PLATE_SIZE (fun j st => extract passedHeatDist i j st))
        (fields, m) in
      (0%Z, st.2, w)
  end.

(** ** The driver *)

(** The variables of the steady-state loop. [iterationCount] is an [int]
    that stays below [ITERATION_LIMIT], far from overflow. *)
Record driver : Type := Driver {
  mem : memory;
  hasReachedSteadyState : bool;
  iterationCount : Z
}.

(** The body of the [do ... while]. *)
Definition iterate (d : driver) : driver :=
  let m := UpdateTemps oldHeatDist newHeatDist (mem d) in
  let steady := negb (StateChanged oldHeatDist newHeatDist HEAT_EPSILON m) in
  let m := TransferValues newHeatDist oldHeatDist m in
  Driver m steady (iterationCount d + 1)%Z.

(** [do body while (!hasReachedSteadyState && iterationCount < ITERATION_LIMIT)],
    with an explicit bound on the number of rounds; [None] when the bound
    is too small. *)
Fixpoint do_while (fuel : nat) (d : driver) : option driver :=
  match fuel with
  | O => None
  | S fuel' =>
      let d' := iterate d in
      if negb (hasReachedSteadyState d') && (iterationCount d' <? ITERATION_LIMIT)%Z
      then do_while fuel' d'
      else Some d'
  end.

(** [main] from ["Printing final plate..."] to its end, entered with the
    arrays as the steady-state loop left them: the exit status, the final
    arrays and the final world. *)
Definition main_after_loop (m : memory) (w : world) : Z * memory * world :=
  let w := print (endl ++ "Printing final plate..." ++ endl) w in
  let w := print (OutputPlate (load newHeatDist m) EmptyString) w in
  let w := print (endl ++ "Writing final plate to " ++ dquote ++ "Hotplate.csv"
                    ++ dquote ++ "..." ++ endl ++ endl) w in
  let '(exportStatus, w) := ExportPlateToCSV newHeatDist m w in
  if negb (exportStatus =? 0)%Z then
    (1%Z, m, print "Error occurred when writing to CSV" w)
  else
    let '(_, m, w) := InitPlateFromTxt oldHeatDist m w in
    let w := print ("Printing input plate after 3 updates..." ++ endl) w in
    let m :=
      for_loop 0 DESIRED_ITERATIONS (fun i m =>
        TransferValues newHeatDist oldHeatDist
          (UpdateTemps oldHeatDist newHeatDist m)) m in
    let w := print (OutputPlate (load oldHeatDist m) EmptyString) w in
    (0%Z, m, w).

(** [main], started with arbitrary contents in its two local arrays.
    The steady-state loop is given [ITERATION_LIMIT] rounds, which is
    enough ([main_loop_terminates]). *)
Definition main (m : memory) (w : world) : option (Z * memory * world) :=
  let m := InitPlate oldHeatDist m in
  let m := InitPlate newHeatDist m in
  let w := print ("Hotplate simulator" ++ endl ++ endl) w in
  let w := print ("Printing the initial plate values..." ++ endl) w in
  let w := print (OutputPlate (load oldHeatDist m) EmptyString) w in
  let w := print (endl ++ "Printing plate after one iteration..." ++ endl) w in
  let m := UpdateTemps oldHeatDist newHeatDist m in
  let w := print (OutputPlate (load newHeatDist m) EmptyString) w in
  let m := TransferValues newHeatDist oldHeatDist m in
  match do_while (Z.to_nat ITERATION_LIMIT) (Driver m false 1%Z) with
  | None => None
  | Some d => Some (main_after_loop (mem d) w)
  end.

Local Close Scope string_scope.

(** ** Vocabulary of the statements *)

(** [lo <= i < hi], the indices a [for] loop from [lo] to [hi] visits. *)
Definition in_range (lo hi i : nat) : bool := (lo <=? i) && (i <? hi).

(** A cell that is not in the outermost rows and columns. *)
Definition interior (i j : nat) : bool :=
  in_range 1 (PLATE_SIZE - 1) i && in_range 1 (PLATE_SIZE - 1) j.

(** A cell of the array that is in the outermost rows or columns. *)
Definition border (i j : nat) : bool :=
  in_range 0 PLATE_SIZE i && in_range 0 PLATE_SIZE j && negb (interior i j).

(** The state of two nested loops that assign [f i j] to the cell [(i, j)]
    of the array [a], rows from [lo] and columns from [lo'] to [hi'], once
    the rows below [i0] and the columns below [j0] of row [i0] are done:
    the array has kept its shape, the other array is as in [m], and
    exactly the cells visited so far have their new value. *)
Definition assigned (a : array) (f : nat -> nat -> float) (lo lo' hi' : nat)
    (m : memory) (i0 j0 : nat) (t : memory) : Prop :=
  well_sized (load a t) = true
  /\ (forall b, b <> a -> load b t = load b m)
  /\ forall i j,
       cell (load a t) i j =
       if in_range lo i0 i && in_range lo' hi' j || (i =? i0) && in_range lo' j0 j
       then f i j else cell (load a m) i j.

(** The plate [InitPlate] builds. *)
Definition initial_temp (i j : nat) : float :=
  if ((i =? 0) || (i =? PLATE_SIZE - 1)) && ((0 <? j) && (j <? PLATE_SIZE - 1))
  then INITIAL_TEMP else 0%float.

(** The same, as an array. *)
Definition initial_plate : plate :=
  (fun i => initial_temp i <$> seq 0 PLATE_SIZE) <$> seq 0 PLATE_SIZE.

(** The mean of the four neighbours of [(i, j)] in [p], as [UpdateTemps]
    computes it. *)
Definition neighbour_mean (p : plate) (i j : nat) : float :=
  average4 (cell p (i - 1) j) (cell p i (j - 1)) (cell p i (j + 1)) (cell p (i + 1) j).

(** The binary64 numbers 4 and 2^1022, as sign, mantissa and exponent. *)
Definition four : spec_float := S754_finite false 4503599627370496 (-50).
Definition two_1022 : spec_float := S754_finite false 4503599627370496 970.

(** An array whose cells all hold [c]. *)
Definition uniform (c : float) : plate :=
  replicate PLATE_SIZE (replicate PLATE_SIZE c).

(** What [main] prints before the steady-state loop, for the arrays
    [m1] after the two calls of [InitPlate] and [m2] after the first
    relaxation step. *)
Definition text_before_loop (m1 m2 : memory) : string :=
  ("Hotplate simulator" ++ endl ++ endl
   ++ "Printing the initial plate values..." ++ endl
   ++ OutputPlate (load oldHeatDist m1) EmptyString
   ++ endl ++ "Printing plate after one iteration..." ++ endl
   ++ OutputPlate (load newHeatDist m2) EmptyString)%string.

(** What [main] prints between the loop and the export, for the arrays
    [m] the loop has left. *)
Definition text_before_export (m : memory) : string :=
  (endl ++ "Printing final plate..." ++ endl
   ++ OutputPlate (load newHeatDist m) EmptyString
   ++ endl ++ "Writing final plate to " ++ dquote ++ "Hotplate.csv"
   ++ dquote ++ "..." ++ endl ++ endl)%string.

(** One field of the output: the value in fixed notation with three
    decimals, in a column of at least nine characters. *)
Definition field (x : float) : string :=
  setw OUTPUT_WIDTH (fixed_text OUTPUT_PRECISION x).

(** The text format in the words of the specification: the fields of a
    row in column order with a comma between two fields and none after the
    last, one row per line, rows in order. *)
Definition rendered_row (p : plate) (i : nat) : string :=
  (String.concat "," (map (fun j => field (cell p i j)) (seq 0 PLATE_SIZE))
   ++ endl)%string.

Definition rendered_plate (p : plate) : string :=
  String.concat EmptyString (map (rendered_row p) (seq 0 PLATE_SIZE)).

Definition is_digit (c : ascii) : bool :=
  (48 <=? nat_of_ascii c) && (nat_of_ascii c <=? 57).

Fixpoint all_digits (s : string) : bool :=
  match s with
  | EmptyString => true
  | String c rest => is_digit c && all_digits rest
  end.

Fixpoint all_blank (s : string) : bool :=
  match s with
  | EmptyString => true
  | String c rest => Ascii.eqb c " " && all_blank rest
  end.

(** [f] holds of the [count] numbers from [k] on. *)
Fixpoint all_from (f : N -> bool) (count : nat) (k : N) : bool :=
  match count with
  | O => true
  | S count' => f k && all_from f count' (N.succ k)
  end.

(** The values that the extractions from these fields store, in order:
    those of the fields up to the first that does not convert, that one
    included. *)
Fixpoint stored_values (fields : list token) : list float :=
  match fields with
  | [] => []
  | t :: rest => stored t :: (if converts t then stored_values rest else [])
  end.

(** The state of the loops of [InitPlateFromTxt] after [k] extractions
    from the fields of the file: the values still to be stored are those
    after the first [k], the array has kept its shape, the other array is
    as in [m], and the first [k] cells in row-major order hold the values
    stored in them, or their old value where none was. *)
Definition imported (a : array) (fields : list token) (m : memory) (k : nat)
    (st : list token * memory) : Prop :=
  stored_values st.1 = drop k (stored_values fields)
  /\ well_sized (load a st.2) = true
  /\ (forall b, b <> a -> load b st.2 = load b m)
  /\ forall i j, i < PLATE_SIZE -> j < PLATE_SIZE ->
       cell (load a st.2) i j =
       if i * PLATE_SIZE + j <? k
       then default (cell (load a m) i j) (stored_values fields !! (i * PLATE_SIZE + j))
       else cell (load a m) i j.

(** The memory after [k] relaxation steps from [m]: the arrays have kept
    their shape, the border of the new array is the one it had in [m],
    and after the first step both arrays hold the same plate. *)
Definition relaxed_from (m : memory) (k : nat) (t : memory) : Prop :=
  well_sized (load oldHeatDist t) = true
  /\ well_sized (load newHeatDist t) = true
  /\ (forall i j, border i j = true ->
        cell (load newHeatDist t) i j = cell (load newHeatDist m) i j)
  /\ (0 < k -> load oldHeatDist t = load newHeatDist t).

(** One of the four corner cells. *)
Definition corner (i j : nat) : bool :=
  ((i =? 0) || (i =? PLATE_SIZE - 1)) && ((j =? 0) || (j =? PLATE_SIZE - 1)).

(** One relaxation step of the driver on the memory: the new plate is
    computed from the old one and copied back. *)
Definition relax (m : memory) : memory :=
  TransferValues newHeatDist oldHeatDist (UpdateTemps oldHeatDist newHeatDist m).

(** A binary64 number other than the infinities and NaN. *)
Definition finite (x : float) : bool :=
  match Prim2SF x with
  | S754_zero _ | S754_finite _ _ _ => true
  | S754_infinity _ | S754_nan => false
  end.

(** [main] up to the [do ... while]: both arrays initialised, one
    relaxation step, and its result copied back. *)
Definition before_loop (m : memory) : memory :=
  TransferValues newHeatDist oldHeatDist
    (UpdateTemps oldHeatDist newHeatDist
       (InitPlate newHeatDist (InitPlate oldHeatDist m))).

(** The three relaxation steps of [main] after the import. *)
Definition three_updates (m : memory) : memory :=
  for_loop 0 DESIRED_ITERATIONS (fun i m =>
    TransferValues newHeatDist oldHeatDist
      (UpdateTemps oldHeatDist newHeatDist m)) m.

(** [f] holds of every cell of the plate. *)
Definition all_cells (f : float -> bool) (p : plate) : bool :=
  forallb (fun i => forallb (fun j => f (cell p i j)) (seq 0 PLATE_SIZE))
    (seq 0 PLATE_SIZE).

(** * Properties *)

(** ** Loops *)

Section Loops.
Context {St : Type}.
Implicit Types (body : nat -> St -> St) (s : St).

Lemma for_loop_empty lo hi body s : hi <= lo -> for_loop lo hi body s = s.
Proof.
  intros Hle. unfold for_loop. replace (hi - lo) with 0 by lia. reflexivity.
Qed.

Lemma for_loop_step lo hi body s :
  lo <= hi -> for_loop lo (S hi) body s = body hi (for_loop lo hi body s).
Proof.
  intros Hle. unfold for_loop.
  replace (S hi - lo) with (S (hi - lo)) by lia.
  rewrite seq_S, foldl_app. simpl. f_equal. lia.
Qed.

(** The loop rule: an invariant that holds at entry and is kept by every
    round holds at exit. *)
Lemma for_loop_invariant (Inv : nat -> St -> Prop) lo hi body s :
  lo <= hi ->
  Inv lo s ->
  (forall i t, lo <= i < hi -> Inv i t -> Inv (S i) (body i t)) ->
  Inv hi (for_loop lo hi body s).
Proof.
  intros Hle Hentry Hkeep. induction Hle as [|hi Hle IH].
  - rewrite for_loop_empty by lia. exact Hentry.
  - rewrite for_loop_step by exact Hle. apply Hkeep; [lia|].
    apply IH. intros i t Hi. apply Hkeep. lia.
Qed.

Lemma for_loop_ext lo hi body body' s :
  (forall i t, lo <= i < hi -> body i t = body' i t) ->
  for_loop lo hi body s = for_loop lo hi body' s.
Proof.
  intros Hsame. destruct (Nat.le_gt_cases lo hi) as [Hle|Hgt].
  - induction Hle as [|hi Hle IH].
    + rewrite !for_loop_empty by lia. reflexivity.
    + rewrite !for_loop_step by exact Hle.
      rewrite IH by (intros; apply Hsame; lia). apply Hsame. lia.
  - rewrite !for_loop_empty by lia. reflexivity.
Qed.
End Loops.

Lemma first_return_none {R : Type} (body : nat -> option R) (idx : list nat) :
  first_return body idx = None <-> forall i, i ∈ idx -> body i = None.
Proof.
  induction idx as [|i idx IH]; simpl.
  - split; [intros _ i Hi; inversion Hi | reflexivity].
  - destruct (body i) as [r|] eqn:Hbody.
    + split; [discriminate|]. intros Hall.
      rewrite <- Hbody. apply Hall. left.
    + rewrite IH. split.
      * intros Hall k Hk. apply elem_of_cons in Hk as [->|Hk]; auto.
      * intros Hall k Hk. apply Hall. right. exact Hk.
Qed.

Lemma first_return_some {R : Type} (body : nat -> option R) (idx : list nat) (r : R) :
  first_return body idx = Some r -> exists i, i ∈ idx /\ body i = Some r.
Proof.
  induction idx as [|i idx IH]; simpl; [discriminate|].
  destruct (body i) as [r'|] eqn:Hbody.
  - intros [= ->]. exists i. split; [left | exact Hbody].
  - intros Hrest. destruct (IH Hrest) as (k & Hk & Hr).
    exists k. split; [right; exact Hk | exact Hr].
Qed.

Lemma elem_of_seq_range (lo hi i : nat) : i ∈ seq lo (hi - lo) <-> lo <= i < hi.
Proof. rewrite elem_of_seq. lia. Qed.

(** ** Plates *)

Lemma well_sized_spec (p : plate) :
  well_sized p = true <->
  length p = PLATE_SIZE /\ forall i r, p !! i = Some r -> length r = PLATE_SIZE.
Proof.
  unfold well_sized. rewrite andb_true_iff, Nat.eqb_eq, forallb_forall.
  split; intros [Hlen Hrows]; split; try exact Hlen.
  - intros i r Hr. apply Nat.eqb_eq, Hrows.
    apply list_elem_of_In. eapply list_elem_of_lookup_2. exact Hr.
  - intros r Hr. apply list_elem_of_In, list_elem_of_lookup_1 in Hr as [i Hr].
    apply Nat.eqb_eq. eapply Hrows. exact Hr.
Qed.

Lemma cell_store_cell_ne (p : plate) (i j i' j' : nat) (v : float) :
  i <> i' \/ j <> j' ->
  cell (store_cell p i j v) i' j' = cell p i' j'.
Proof.
  intros Hne. unfold cell, store_cell.
  destruct (decide (i = i')) as [<-|Hi].
  - rewrite list_lookup_alter_eq. destruct (p !! i) as [r|]; simpl; [|reflexivity].
    rewrite list_lookup_insert_ne by (destruct Hne; congruence). reflexivity.
  - rewrite list_lookup_alter_ne by exact Hi. reflexivity.
Qed.

Lemma cell_store_cell_eq (p : plate) (i j : nat) (v : float) :
  well_sized p = true -> i < PLATE_SIZE -> j < PLATE_SIZE ->
  cell (store_cell p i j v) i j = v.
Proof.
  intros [Hlen Hrows]%well_sized_spec Hi Hj. unfold cell, store_cell.
  rewrite list_lookup_alter_eq.
  destruct (lookup_lt_is_Some_2 p i) as [r Hr]; [lia|].
  rewrite Hr. simpl.
  rewrite list_lookup_insert_eq by (rewrite (Hrows i r Hr); exact Hj).
  reflexivity.
Qed.

Lemma well_sized_store_cell (p : plate) (i j : nat) (v : float) :
  well_sized p = true -> well_sized (store_cell p i j v) = true.
Proof.
  rewrite !well_sized_spec. intros [Hlen Hrows]. unfold store_cell. split.
  - rewrite length_alter. exact Hlen.
  - intros k r. destruct (decide (i = k)) as [<-|Hne].
    + rewrite list_lookup_alter_eq. destruct (p !! i) as [r0|] eqn:Hr0; simpl; [|discriminate].
      intros [= <-]. rewrite length_insert. eapply Hrows. exact Hr0.
    + rewrite list_lookup_alter_ne by exact Hne. apply Hrows.
Qed.

(** Two arrays of the program's shape with the same cells are the same. *)
Lemma plate_ext (p q : plate) :
  well_sized p = true -> well_sized q = true ->
  (forall i j, i < PLATE_SIZE -> j < PLATE_SIZE -> cell p i j = cell q i j) ->
  p = q.
Proof.
  intros [Hp Hprows]%well_sized_spec [Hq Hqrows]%well_sized_spec Hcells.
  apply list_eq_same_length with PLATE_SIZE; try assumption.
  intros i r r' Hi Hr Hr'.
  apply list_eq_same_length with PLATE_SIZE; [eauto | eauto |].
  intros j x y Hj Hx Hy.
  specialize (Hcells i j Hi Hj). unfold cell in Hcells.
  rewrite Hr, Hr', Hx, Hy in Hcells. exact Hcells.
Qed.

(** ** Memory *)

Lemma load_store (a : array) (p : plate) (m : memory) : load a (store a p m) = p.
Proof. destruct a; reflexivity. Qed.

Lemma load_store_ne (a b : array) (p : plate) (m : memory) :
  a <> b -> load b (store a p m) = load b m.
Proof. destruct a, b; intros Hne; try reflexivity; congruence. Qed.

Lemma memory_ext (m m' : memory) :
  (forall a, load a m = load a m') -> m = m'.
Proof.
  intros Hsame. destruct m as [o n], m' as [o' n'].
  pose proof (Hsame oldHeatDist) as Ho. pose proof (Hsame newHeatDist) as Hn.
  simpl in Ho, Hn. congruence.
Qed.

Lemma load_assign (a : array) (i j : nat) (v : float) (m : memory) :
  load a (assign a i j v m) = store_cell (load a m) i j v.
Proof. apply load_store. Qed.

Lemma load_assign_ne (a b : array) (i j : nat) (v : float) (m : memory) :
  a <> b -> load b (assign a i j v m) = load b m.
Proof. apply load_store_ne. Qed.

(** ** Two nested loops that assign one cell per round *)

Ltac range_cases :=
  unfold in_range in *;
  repeat match goal with
    | |- context [(?a <=? ?b)] => destruct (Nat.leb_spec a b)
    | |- context [(?a <? ?b)] => destruct (Nat.ltb_spec a b)
    | |- context [(?a =? ?b)] => destruct (Nat.eqb_spec a b)
    end;
  simpl; try reflexivity; try lia.

Section NestedAssign.
Variables (a : array) (g : nat -> nat -> memory -> float) (f : nat -> nat -> float).
Variables (lo hi lo' hi' : nat) (m : memory).
Hypothesis Hrows : lo <= hi <= PLATE_SIZE.
Hypothesis Hcols : lo' <= hi' <= PLATE_SIZE.
Hypothesis Hsized : well_sized (load a m) = true.
(** The value assigned does not depend on what the loops have written. *)
Hypothesis Hvalue :
  forall i j t, lo <= i < hi -> lo' <= j < hi' ->
    (forall b, b <> a -> load b t = load b m) -> g i j t = f i j.

Let done := assigned a f lo lo' hi' m.

Lemma assigned_cell (i j : nat) (t : memory) :
  lo <= i < hi -> lo' <= j < hi' ->
  done i j t -> done i (S j) (assign a i j (g i j t) t).
Proof.
  intros Hi Hj (Hsz & Hframe & Hcells). repeat split.
  - rewrite load_assign. apply well_sized_store_cell, Hsz.
  - intros b Hb. rewrite load_assign_ne by congruence. apply Hframe, Hb.
  - intros i1 j1. rewrite load_assign, (Hvalue i j t Hi Hj Hframe).
    destruct (decide (i = i1 /\ j = j1)) as [[<- <-]|Hne].
    + rewrite cell_store_cell_eq by (assumption || lia). range_cases.
    + rewrite cell_store_cell_ne by lia. rewrite Hcells. range_cases.
Qed.

Lemma assigned_row (i : nat) (t : memory) :
  lo <= i < hi ->
  done i lo' t ->
  done (S i) lo'
    (for_loop lo' hi' (fun j t => assign a i j (g i j t) t) t).
Proof.
  intros Hi Hentry.
  assert (done i hi'
            (for_loop lo' hi' (fun j t => assign a i j (g i j t) t) t))
    as (Hsz & Hframe & Hcells).
  { apply (for_loop_invariant (done i)); [lia | exact Hentry |].
    intros j u Hj. apply assigned_cell; assumption. }
  repeat split; try assumption.
  intros i1 j1. rewrite Hcells. range_cases.
Qed.

Lemma nested_assign :
  let m' :=
    for_loop lo hi (fun i =>
      for_loop lo' hi' (fun j t => assign a i j (g i j t) t)) m in
  well_sized (load a m') = true
  /\ (forall b, b <> a -> load b m' = load b m)
  /\ forall i j,
       cell (load a m') i j =
       if in_range lo hi i && in_range lo' hi' j then f i j
       else cell (load a m) i j.
Proof.
  intros m'.
  assert (done hi lo' m') as (Hsz & Hframe & Hcells).
  { apply (for_loop_invariant (fun i => done i lo')); [lia | |].
    - repeat split; try assumption. intros i j. range_cases.
    - intros i t Hi. apply assigned_row, Hi. }
  repeat split; try assumption.
  intros i j. rewrite Hcells. range_cases.
Qed.
End NestedAssign.

(** ** The numeric functions, cell by cell *)

Lemma UpdateTemps_cells (inputHeatDist outputHeatDist : array) (m : memory) :
  inputHeatDist <> outputHeatDist ->
  well_sized (load outputHeatDist m) = true ->
  let m' := UpdateTemps inputHeatDist outputHeatDist m in
  well_sized (load outputHeatDist m') = true
  /\ load inputHeatDist m' = load inputHeatDist m
  /\ forall i j,
       cell (load outputHeatDist m') i j =
       if interior i j then neighbour_mean (load inputHeatDist m) i j
       else cell (load outputHeatDist m) i j.
Proof.
  intros Hne Hsz m'.
  destruct (nested_assign outputHeatDist
              (fun i j t => neighbour_mean (load inputHeatDist t) i j)
              (neighbour_mean (load inputHeatDist m))
              1 (PLATE_SIZE - 1) 1 (PLATE_SIZE - 1) m) as (Hsz' & Hframe & Hcells).
  - unfold PLATE_SIZE. lia.
  - unfold PLATE_SIZE. lia.
  - exact Hsz.
  - intros i j t _ _ Hsame. rewrite (Hsame inputHeatDist Hne). reflexivity.
  - repeat split; [exact Hsz' | apply Hframe, Hne | exact Hcells].
Qed.

Lemma TransferValues_cells (sourceArray destArray : array) (m : memory) :
  sourceArray <> destArray ->
  well_sized (load destArray m) = true ->
  let m' := TransferValues sourceArray destArray m in
  well_sized (load destArray m') = true
  /\ load sourceArray m' = load sourceArray m
  /\ forall i j, i < PLATE_SIZE -> j < PLATE_SIZE ->
       cell (load destArray m') i j = cell (load sourceArray m) i j.
Proof.
  intros Hne Hsz m'.
  destruct (nested_assign destArray
              (fun i j t => cell (load sourceArray t) i j)
              (cell (load sourceArray m))
              0 PLATE_SIZE 0 PLATE_SIZE m) as (Hsz' & Hframe & Hcells).
  - lia.
  - lia.
  - exact Hsz.
  - intros i j t _ _ Hsame. rewrite (Hsame sourceArray Hne). reflexivity.
  - repeat split; [exact Hsz' | apply Hframe, Hne |].
    intros i j Hi Hj. fold m'. rewrite Hcells. range_cases.
Qed.

(** After the copy both arrays hold the source. *)
Lemma TransferValues_copies (sourceArray destArray : array) (m : memory) :
  sourceArray <> destArray ->
  well_sized (load sourceArray m) = true ->
  well_sized (load destArray m) = true ->
  load destArray (TransferValues sourceArray destArray m) = load sourceArray m
  /\ load sourceArray (TransferValues sourceArray destArray m) = load sourceArray m.
Proof.
  intros Hne Hsrc Hdst.
  destruct (TransferValues_cells sourceArray destArray m Hne Hdst)
    as (Hsz & Hframe & Hcells).
  split; [|exact Hframe].
  apply plate_ext; assumption.
Qed.

Lemma InitPlate_cells (passedHeatDist : array) (m : memory) :
  well_sized (load passedHeatDist m) = true ->
  let m' := InitPlate passedHeatDist m in
  well_sized (load passedHeatDist m') = true
  /\ (forall b, b <> passedHeatDist -> load b m' = load b m)
  /\ forall i j, i < PLATE_SIZE -> j < PLATE_SIZE ->
       cell (load passedHeatDist m') i j = initial_temp i j.
Proof.
  intros Hsz m'.
  assert (m' =
          for_loop 0 PLATE_SIZE (fun i =>
            for_loop 0 PLATE_SIZE (fun j t =>
              assign passedHeatDist i j (initial_temp i j) t)) m) as Hloops.
  { unfold m', InitPlate. apply for_loop_ext. intros i t _.
    apply for_loop_ext. intros j u _. unfold initial_temp.
    destruct ((i =? 0) || (i =? PLATE_SIZE - 1)); [|reflexivity].
    rewrite andb_true_l.
    destruct ((0 <? j) && (j <? PLATE_SIZE - 1)); reflexivity. }
  destruct (nested_assign passedHeatDist
              (fun i j _ => initial_temp i j) initial_temp
              0 PLATE_SIZE 0 PLATE_SIZE m) as (Hsz' & Hframe & Hcells);
    try lia; try assumption; try reflexivity.
  rewrite Hloops. repeat split; [exact Hsz' | exact Hframe |].
  intros i j Hi Hj. rewrite Hcells. range_cases.
Qed.

(** ** Claims on the relaxation step and the initial plate *)

(** C1. [UpdateTemps] called on two different arrays writes interior
    cells only: every interior cell of the output array becomes the mean
    (sum of the upper, left, right and lower neighbour, divided by 4, in
    binary64 arithmetic) of its four neighbours in the input array, every
    other cell of the output array, so every border cell, keeps its value,
    and the input array is the same before and after the call. *)
Theorem UpdateTemps_writes_interior_means
    (inputHeatDist outputHeatDist : array) (m : memory) :
  inputHeatDist <> outputHeatDist ->
  well_sized (load outputHeatDist m) = true ->
  let m' := UpdateTemps inputHeatDist outputHeatDist m in
  (forall i j, interior i j = true ->
     cell (load outputHeatDist m') i j =
     ((cell (load inputHeatDist m) (i - 1) j + cell (load inputHeatDist m) i (j - 1)
       + cell (load inputHeatDist m) i (j + 1) + cell (load inputHeatDist m) (i + 1) j)
      / 4)%float)
  /\ (forall i j, interior i j = false ->
        cell (load outputHeatDist m') i j = cell (load outputHeatDist m) i j)
  /\ (forall i j, border i j = true ->
        cell (load outputHeatDist m') i j = cell (load outputHeatDist m) i j)
  /\ load inputHeatDist m' = load inputHeatDist m.
Proof.
  intros Hne Hsz m'.
  destruct (UpdateTemps_cells inputHeatDist outputHeatDist m Hne Hsz)
    as (_ & Hinput & Hcells).
  fold m' in Hinput, Hcells. repeat split.
  - intros i j Hin. rewrite Hcells, Hin. reflexivity.
  - intros i j Hout. rewrite Hcells, Hout. reflexivity.
  - intros i j Hb. rewrite Hcells. unfold border in Hb.
    destruct (interior i j); [|reflexivity].
    rewrite andb_false_r in Hb. discriminate.
  - exact Hinput.
Qed.

Lemma UpdateTemps_writes_interior_means_witness :
  let m := Memory (uniform 8%float) (uniform 0%float) in
  let m' := UpdateTemps oldHeatDist newHeatDist m in
  cell (load newHeatDist m') 3 4 = 8%float
  /\ cell (load newHeatDist m') 0 4 = 0%float
  /\ load oldHeatDist m' = uniform 8%float.
Proof.
  intros m m'. subst m'.
  destruct (UpdateTemps_writes_interior_means oldHeatDist newHeatDist m)
    as (Hin & _ & Hb & Hsame).
  - discriminate.
  - reflexivity.
  - split; [|split].
    + rewrite (Hin 3 4) by reflexivity. reflexivity.
    + rewrite (Hb 0 4) by reflexivity. reflexivity.
    + exact Hsame.
Defined.

(** C4. [InitPlate] fills the array so that the cells of the top row and
    of the bottom row other than the four corners hold the initial
    temperature 100.0, and all other cells (the corners, the interior, the
    left and the right column) hold 0.0. *)
Theorem InitPlate_top_bottom_hot (passedHeatDist : array) (m : memory) :
  well_sized (load passedHeatDist m) = true ->
  forall i j, i < PLATE_SIZE -> j < PLATE_SIZE ->
    cell (load passedHeatDist (InitPlate passedHeatDist m)) i j =
    if decide ((i = 0 \/ i = PLATE_SIZE - 1) /\ 0 < j < PLATE_SIZE - 1)
    then 100%float else 0%float.
Proof.
  intros Hsz i j Hi Hj.
  destruct (InitPlate_cells passedHeatDist m Hsz) as (_ & _ & Hcells).
  rewrite Hcells by assumption. unfold initial_temp, INITIAL_TEMP.
  case_decide as Hhot.
  - destruct Hhot as [[-> | ->] Hcol]; range_cases.
  - range_cases; exfalso; apply Hhot; lia.
Qed.

Lemma InitPlate_top_bottom_hot_witness :
  cell (load oldHeatDist (InitPlate oldHeatDist (Memory (uniform 7%float) (uniform 7%float)))) 9 3
  = 100%float.
Proof.
  apply (InitPlate_top_bottom_hot oldHeatDist (Memory (uniform 7%float) (uniform 7%float)));
    [reflexivity | unfold PLATE_SIZE; lia | unfold PLATE_SIZE; lia].
Defined.


(** ** Binary64 facts *)

(** [x - x] is [+0] for a finite [x] and NaN otherwise. *)
Lemma SFsub_diag (x : spec_float) :
  SFsub prec emax x x = S754_zero false \/ SFsub prec emax x x = S754_nan.
Proof.
  destruct x as [s|s| |s m e]; simpl.
  - left. destruct s; reflexivity.
  - right. destruct s; reflexivity.
  - right. reflexivity.
  - left. rewrite Z.min_id. unfold shl_align. rewrite Z.sub_diag. simpl.
    rewrite ?Z.sub_diag. reflexivity.
Qed.

(** A value never differs from itself by more than a threshold that is
    not negative, whatever the value, infinities and NaN included. *)
Lemma exceeds_diag (epsilonVal x : float) :
  (0 <=? epsilonVal)%float = true -> exceeds epsilonVal x x = false.
Proof.
  unfold exceeds. rewrite leb_spec, ltb_spec, abs_spec, sub_spec.
  unfold SF64sub.
  destruct (SFsub_diag (Prim2SF x)) as [-> | ->]; simpl.
  - change (Prim2SF 0) with (S754_zero false).
    destruct (Prim2SF epsilonVal) as [s|s| |s m e];
      try destruct s; simpl; try reflexivity; try discriminate.
  - intros _. unfold SFltb, SFcompare.
    destruct (Prim2SF epsilonVal); reflexivity.
Qed.

(** ** The convergence check *)

Lemma StateChanged_true_iff (oldHeatArray newHeatDist : array) (epsilonVal : float)
    (m : memory) :
  StateChanged oldHeatArray newHeatDist epsilonVal m = true <->
  exists i j, interior i j = true
    /\ exceeds epsilonVal (cell (load oldHeatArray m) i j)
         (cell (load newHeatDist m) i j) = true.
Proof.
  unfold StateChanged, for_return.
  set (inner := fun i : nat => first_return _ _).
  split.
  - destruct (first_return inner _) as [r|] eqn:Houter; [|discriminate].
    intros ->. apply first_return_some in Houter as (i & Hi & Hinner).
    apply first_return_some in Hinner as (j & Hj & Hcell).
    exists i, j. apply elem_of_seq_range in Hi, Hj. split.
    + unfold interior. range_cases.
    + destruct (exceeds _ _ _); [reflexivity | discriminate].
  - intros (i & j & Hint & Hexc).
    destruct (first_return inner _) as [r|] eqn:Houter.
    + apply first_return_some in Houter as (i' & _ & Hinner).
      apply first_return_some in Hinner as (j' & _ & Hcell).
      simpl. clear Hexc. destruct (exceeds _ _ _); congruence.
    + exfalso.
      assert (lo_hi : forall k, in_range 1 (PLATE_SIZE - 1) k = true ->
                k ∈ seq 1 (PLATE_SIZE - 1 - 1)).
      { intros k [Hlo Hhi]%andb_true_iff. apply elem_of_seq_range.
        apply Nat.leb_le in Hlo. apply Nat.ltb_lt in Hhi. lia. }
      unfold interior in Hint. apply andb_true_iff in Hint as [Hi Hj].
      pose proof (proj1 (first_return_none _ _) Houter i (lo_hi i Hi)) as Hinner.
      pose proof (proj1 (first_return_none _ _) Hinner j (lo_hi j Hj)) as Hcell.
      simpl in Hcell. rewrite Hexc in Hcell. discriminate.
Qed.

(** C2. [StateChanged] returns true exactly when some interior cell of
    the new array differs from the same cell of the old array by more
    than epsilon in absolute value ([fabs(new - old) > epsilon] in
    binary64 arithmetic). So for an epsilon that is not negative it
    returns false on two arrays with the same contents, and it returns
    true when one interior cell differs by more than epsilon, whatever the
    other cells hold, in particular when they are all equal. *)
Theorem StateChanged_iff_interior_differs
    (oldHeatArray newHeatDist : array) (epsilonVal : float) (m : memory) :
  (StateChanged oldHeatArray newHeatDist epsilonVal m = true <->
   exists i j, interior i j = true
     /\ (epsilonVal <? abs (cell (load newHeatDist m) i j
                            - cell (load oldHeatArray m) i j))%float = true)
  /\ ((0 <=? epsilonVal)%float = true ->
      load oldHeatArray m = load newHeatDist m ->
      StateChanged oldHeatArray newHeatDist epsilonVal m = false)
  /\ (forall i j,
        interior i j = true ->
        (epsilonVal <? abs (cell (load newHeatDist m) i j
                            - cell (load oldHeatArray m) i j))%float = true ->
        (forall i' j', (i', j') <> (i, j) ->
           cell (load newHeatDist m) i' j' = cell (load oldHeatArray m) i' j') ->
        StateChanged oldHeatArray newHeatDist epsilonVal m = true).
Proof.
  split; [apply StateChanged_true_iff|]. split.
  - intros Heps Hsame. apply not_true_is_false.
    intros (i & j & _ & Hexc)%StateChanged_true_iff.
    rewrite Hsame, exceeds_diag in Hexc by exact Heps. discriminate.
  - intros i j Hint Hexc _. apply StateChanged_true_iff. eauto.
Qed.

Lemma StateChanged_iff_interior_differs_witness :
  let m := Memory (uniform 20%float) (store_cell (uniform 20%float) 4 7 21%float) in
  StateChanged oldHeatDist newHeatDist HEAT_EPSILON m = true
  /\ StateChanged oldHeatDist oldHeatDist HEAT_EPSILON m = false.
Proof.
  intros m.
  destruct (StateChanged_iff_interior_differs oldHeatDist newHeatDist HEAT_EPSILON m)
    as (_ & _ & Hone).
  destruct (StateChanged_iff_interior_differs oldHeatDist oldHeatDist HEAT_EPSILON m)
    as (_ & Hsame & _).
  split.
  - apply (Hone 4 7); [reflexivity | reflexivity |].
    intros i' j' Hother. apply cell_store_cell_ne.
    destruct (decide (4 = i')) as [<-|]; [|left; assumption].
    right. intros <-. apply Hother. reflexivity.
  - apply Hsame; reflexivity.
Defined.

(** ** The initial configuration *)

Lemma cell_initial_plate (i j : nat) :
  i < PLATE_SIZE -> j < PLATE_SIZE -> cell initial_plate i j = initial_temp i j.
Proof.
  intros Hi Hj. unfold cell, initial_plate.
  rewrite list_lookup_fmap, lookup_seq_lt by exact Hi.
  cbv [fmap option_fmap option_map].
  change (list_fmap nat float) with (@fmap list list_fmap nat float).
  rewrite list_lookup_fmap, lookup_seq_lt by exact Hj. reflexivity.
Qed.

(** Whatever the two local arrays hold when [main] starts, the two calls
    of [InitPlate] leave the same plate in both. *)
Lemma InitPlate_both (m : memory) :
  well_sized (load oldHeatDist m) = true ->
  well_sized (load newHeatDist m) = true ->
  InitPlate newHeatDist (InitPlate oldHeatDist m) = Memory initial_plate initial_plate.
Proof.
  intros Hold Hnew.
  destruct (InitPlate_cells oldHeatDist m Hold) as (Hsz1 & Hframe1 & Hcells1).
  destruct (InitPlate_cells newHeatDist (InitPlate oldHeatDist m))
    as (Hsz2 & Hframe2 & Hcells2).
  { rewrite Hframe1 by discriminate. exact Hnew. }
  apply memory_ext. intros [|].
  - rewrite Hframe2 by discriminate. simpl (load _ (Memory _ _)).
    apply plate_ext; [exact Hsz1 | reflexivity |].
    intros i j Hi Hj. rewrite Hcells1, cell_initial_plate by assumption. reflexivity.
  - simpl (load _ (Memory _ _)).
    apply plate_ext; [exact Hsz2 | reflexivity |].
    intros i j Hi Hj. rewrite Hcells2, cell_initial_plate by assumption. reflexivity.
Qed.

(** C7. From the plate that [InitPlate] builds (top and bottom rows 100.0
    without the corners, all else 0.0), one call of [UpdateTemps] gives the
    interior cell (1,1) the value (100.0 + 0.0 + 0.0 + 0.0) / 4 = 25.0, and
    the interior cell (1,5) the value 25.0 as well. *)
Theorem first_update_gives_25 (m : memory) :
  well_sized (load oldHeatDist m) = true ->
  well_sized (load newHeatDist m) = true ->
  let m1 := InitPlate newHeatDist (InitPlate oldHeatDist m) in
  let m2 := UpdateTemps oldHeatDist newHeatDist m1 in
  cell (load oldHeatDist m1) 0 1 = 100%float
  /\ cell (load oldHeatDist m1) 1 0 = 0%float
  /\ cell (load oldHeatDist m1) 1 2 = 0%float
  /\ cell (load oldHeatDist m1) 2 1 = 0%float
  /\ cell (load newHeatDist m2) 1 1 = ((100 + 0 + 0 + 0) / 4)%float
  /\ cell (load newHeatDist m2) 1 1 = 25%float
  /\ cell (load newHeatDist m2) 1 5 = 25%float.
Proof.
  intros Hold Hnew m1 m2. subst m2 m1.
  rewrite (InitPlate_both m Hold Hnew).
  repeat split; vm_compute; reflexivity.
Qed.

Lemma first_update_gives_25_witness :
  cell (load newHeatDist
          (UpdateTemps oldHeatDist newHeatDist
             (InitPlate newHeatDist
                (InitPlate oldHeatDist (Memory (uniform 3%float) (uniform 5%float))))))
    1 5 = 25%float.
Proof.
  apply (first_update_gives_25 (Memory (uniform 3%float) (uniform 5%float)));
    reflexivity.
Defined.

(** ** The steady-state loop *)

Lemma do_while_unfold (fuel : nat) (d : driver) :
  do_while (S fuel) d =
  if negb (hasReachedSteadyState (iterate d))
     && (iterationCount (iterate d) <? ITERATION_LIMIT)%Z
  then do_while fuel (iterate d)
  else Some (iterate d).
Proof. reflexivity. Qed.

Lemma iterate_unfold (d : driver) :
  iterate d =
  Driver (TransferValues newHeatDist oldHeatDist
            (UpdateTemps oldHeatDist newHeatDist (mem d)))
    (negb (StateChanged oldHeatDist newHeatDist HEAT_EPSILON
             (UpdateTemps oldHeatDist newHeatDist (mem d))))
    (iterationCount d + 1)%Z.
Proof. reflexivity. Qed.

Lemma iterationCount_Driver (m : memory) (steady : bool) (count : Z) :
  iterationCount (Driver m steady count) = count.
Proof. reflexivity. Qed.

Lemma hasReachedSteadyState_Driver (m : memory) (steady : bool) (count : Z) :
  hasReachedSteadyState (Driver m steady count) = steady.
Proof. reflexivity. Qed.

Lemma iterationCount_iterate (d : driver) :
  iterationCount (iterate d) = (iterationCount d + 1)%Z.
Proof. rewrite iterate_unfold. apply iterationCount_Driver. Qed.

Lemma hasReachedSteadyState_iterate (d : driver) :
  hasReachedSteadyState (iterate d)
  = negb (StateChanged oldHeatDist newHeatDist HEAT_EPSILON
            (UpdateTemps oldHeatDist newHeatDist (mem d))).
Proof. rewrite iterate_unfold. apply hasReachedSteadyState_Driver. Qed.

(** With as many rounds allowed as the counter is below the cap, and at
    least one, the loop ends; its last round either found no change or
    brought the counter to the cap. *)
Lemma do_while_terminates (fuel : nat) (d : driver) :
  1 <= fuel ->
  (ITERATION_LIMIT - iterationCount d <= Z.of_nat fuel)%Z ->
  exists last : driver,
    do_while fuel d = Some (iterate last)
    /\ (hasReachedSteadyState (iterate last) = true
        \/ (ITERATION_LIMIT <= iterationCount (iterate last))%Z)
    /\ (iterationCount d <= iterationCount last)%Z
    /\ (iterationCount last < Z.max ITERATION_LIMIT (iterationCount d + 1))%Z.
Proof.
  revert d. induction fuel as [|fuel IH]; intros d Hpos Hfuel; [lia|].
  rewrite do_while_unfold.
  destruct (hasReachedSteadyState (iterate d)) eqn:Hsteady; cbn [negb andb].
  - exists d. rewrite Hsteady. repeat split; [left; reflexivity | lia | lia].
  - destruct (Z.ltb_spec (iterationCount (iterate d)) ITERATION_LIMIT) as [Hlt|Hge].
    + rewrite iterationCount_iterate in Hlt.
      destruct (IH (iterate d)) as (last & Hrun & Hexit & Hlo & Hhi).
      * lia.
      * rewrite iterationCount_iterate. lia.
      * rewrite iterationCount_iterate in Hlo, Hhi.
        exists last. repeat split; [exact Hrun | exact Hexit | lia | lia].
    + exists d. repeat split; [right; exact Hge | lia | lia].
Qed.

(** The loop of [main], entered with the counter at 1. *)
Lemma main_loop_terminates (m : memory) :
  exists last : driver,
    do_while (Z.to_nat ITERATION_LIMIT) (Driver m false 1) = Some (iterate last)
    /\ (hasReachedSteadyState (iterate last) = true
        \/ iterationCount (iterate last) = ITERATION_LIMIT)
    /\ (1 <= iterationCount last < ITERATION_LIMIT)%Z.
Proof.
  destruct (do_while_terminates (Z.to_nat ITERATION_LIMIT) (Driver m false 1))
    as (last & Hrun & Hexit & Hlo & Hhi).
  - unfold ITERATION_LIMIT. lia.
  - unfold ITERATION_LIMIT. rewrite iterationCount_Driver. lia.
  - rewrite iterationCount_Driver in Hlo, Hhi. unfold ITERATION_LIMIT in Hhi at 1.
    exists last. repeat split; [exact Hrun | | lia | unfold ITERATION_LIMIT; lia].
    destruct Hexit as [Hsteady | Hcap]; [left; exact Hsteady | right].
    rewrite iterationCount_iterate in *. unfold ITERATION_LIMIT in *. lia.
Qed.

(** The run of the loop on the fixed initial configuration, evaluated. *)
Lemma initial_run_converges :
  exists final : driver,
    do_while (Z.to_nat ITERATION_LIMIT)
      (Driver
         (TransferValues newHeatDist oldHeatDist
            (UpdateTemps oldHeatDist newHeatDist (Memory initial_plate initial_plate)))
         false 1)
    = Some final
    /\ hasReachedSteadyState final = true
    /\ iterationCount final = 63%Z.
Proof.
  eexists. split; [vm_compute; reflexivity|]. split; reflexivity.
Qed.

(** C3. The steady-state loop of [main] always ends: from any contents
    of the arrays it returns after a last round in which either
    [StateChanged] returned false or the counter reached
    [ITERATION_LIMIT]. For the fixed initial configuration (10 by 10 plate,
    top and bottom rows 100.0 without the corners, epsilon 0.1) it ends
    because [StateChanged] returned false, with the counter at 63, below
    the cap of 999999. *)
Theorem steady_state_loop_terminates :
  (forall m : memory,
     exists last : driver,
       do_while (Z.to_nat ITERATION_LIMIT) (Driver m false 1) = Some (iterate last)
       /\ (StateChanged oldHeatDist newHeatDist HEAT_EPSILON
             (UpdateTemps oldHeatDist newHeatDist (mem last)) = false
           \/ iterationCount (iterate last) = ITERATION_LIMIT))
  /\ (forall m : memory,
        well_sized (load oldHeatDist m) = true ->
        well_sized (load newHeatDist m) = true ->
        exists final : driver,
          do_while (Z.to_nat ITERATION_LIMIT) (Driver (before_loop m) false 1)
            = Some final
          /\ hasReachedSteadyState final = true
          /\ iterationCount final = 63%Z
          /\ (iterationCount final < ITERATION_LIMIT)%Z).
Proof.
  split.
  - intros m. destruct (main_loop_terminates m) as (last & Hrun & Hexit & _).
    exists last. split; [exact Hrun|].
    destruct Hexit as [Hsteady | Hcap]; [left | right; exact Hcap].
    rewrite hasReachedSteadyState_iterate in Hsteady.
    apply negb_true_iff in Hsteady. exact Hsteady.
  - intros m Hold Hnew. unfold before_loop.
    rewrite (InitPlate_both m Hold Hnew).
    destruct initial_run_converges as (final & Hrun & Hsteady & Hcount).
    exists final. split; [exact Hrun|]. split; [exact Hsteady|].
    split; [exact Hcount|]. rewrite Hcount. reflexivity.
Qed.

Lemma steady_state_loop_terminates_witness :
  exists final : driver,
    do_while (Z.to_nat ITERATION_LIMIT)
      (Driver (before_loop (Memory (uniform 1%float) (uniform 2%float))) false 1)
      = Some final
    /\ hasReachedSteadyState final = true
    /\ iterationCount final = 63%Z
    /\ (iterationCount final < ITERATION_LIMIT)%Z.
Proof.
  apply (proj2 steady_state_loop_terminates
           (Memory (uniform 1%float) (uniform 2%float)));
    reflexivity.
Defined.

(** ** Strings *)

Lemma append_assoc (s t u : string) : ((s ++ t) ++ u = s ++ (t ++ u))%string.
Proof. induction s as [|c s IH]; simpl; [reflexivity | rewrite IH; reflexivity]. Qed.

Lemma append_empty_r (s : string) : (s ++ EmptyString)%string = s.
Proof. induction s as [|c s IH]; simpl; [reflexivity | rewrite IH; reflexivity]. Qed.

Lemma length_append (s t : string) :
  String.length (s ++ t) = String.length s + String.length t.
Proof. induction s as [|c s IH]; simpl; [reflexivity | rewrite IH; reflexivity]. Qed.

Lemma length_spaces (k : nat) : String.length (spaces k) = k.
Proof. induction k as [|k IH]; simpl; [reflexivity | rewrite IH; reflexivity]. Qed.

Lemma all_blank_spaces (k : nat) : all_blank (spaces k) = true.
Proof. induction k as [|k IH]; simpl; [reflexivity | exact IH]. Qed.

Lemma cout_World (text : string) (opens : bool) (csv : option string)
    (txt : option (list token)) :
  cout (World text opens csv txt) = text.
Proof. reflexivity. Qed.

Lemma Hotplate_csv_World (text : string) (opens : bool) (csv : option string)
    (txt : option (list token)) :
  Hotplate_csv (World text opens csv txt) = csv.
Proof. reflexivity. Qed.

Lemma Inputplate_txt_World (text : string) (opens : bool) (csv : option string)
    (txt : option (list token)) :
  Inputplate_txt (World text opens csv txt) = txt.
Proof. reflexivity. Qed.

Lemma append_empty_l (s : string) : (EmptyString ++ s)%string = s.
Proof. reflexivity. Qed.

Lemma cout_print (t : string) (w : world) : cout (print t w) = (cout w ++ t)%string.
Proof. reflexivity. Qed.

Lemma csv_opens_print (t : string) (w : world) : csv_opens (print t w) = csv_opens w.
Proof. reflexivity. Qed.

Lemma Hotplate_csv_print (t : string) (w : world) :
  Hotplate_csv (print t w) = Hotplate_csv w.
Proof. reflexivity. Qed.

Lemma Inputplate_txt_print (t : string) (w : world) :
  Inputplate_txt (print t w) = Inputplate_txt w.
Proof. reflexivity. Qed.

Lemma print_print (s t : string) (w : world) :
  print t (print s w) = print (s ++ t) w.
Proof. unfold print. simpl. rewrite append_assoc. reflexivity. Qed.

(** ** The program as a whole *)

Section WholeProgram.
Local Open Scope string_scope.

(** [main] reaches the end of the steady-state loop, having printed the
    two plates, and goes on from there. *)
Lemma main_passes_loop (m : memory) (w : world) :
  exists final : driver,
    do_while (Z.to_nat ITERATION_LIMIT) (Driver (before_loop m) false 1) = Some final
    /\ main m w =
       Some (main_after_loop (mem final)
               (print (text_before_loop
                         (InitPlate newHeatDist (InitPlate oldHeatDist m))
                         (UpdateTemps oldHeatDist newHeatDist
                            (InitPlate newHeatDist (InitPlate oldHeatDist m)))) w)).
Proof.
  destruct (main_loop_terminates (before_loop m)) as (last & Hrun & _).
  exists (iterate last). split; [exact Hrun|].
  unfold main. cbv zeta. fold (before_loop m). rewrite Hrun.
  rewrite !print_print. unfold text_before_loop.
  rewrite !append_assoc. reflexivity.
Qed.

Lemma main_after_loop_export_fails (m : memory) (w : world) :
  csv_opens w = false ->
  main_after_loop m w =
  (1%Z, m,
   World (cout w ++ text_before_export m
            ++ ("Could not open file Hotplate.csv" ++ endl)
            ++ "Error occurred when writing to CSV")
     false (Hotplate_csv w) (Inputplate_txt w)).
Proof.
  intros Hclosed. unfold main_after_loop, ExportPlateToCSV. cbv zeta.
  rewrite !print_print. unfold print at 1. cbn [csv_opens].
  rewrite Hclosed. cbn [negb Z.eqb]. rewrite print_print.
  unfold print. rewrite Hclosed. unfold text_before_export.
  rewrite !append_assoc. reflexivity.
Qed.

Lemma main_after_loop_export_succeeds (m : memory) (w : world) :
  csv_opens w = true ->
  main_after_loop m w =
  let exported :=
    World (cout w ++ text_before_export m) true
      (Some (OutputPlate (load newHeatDist m) EmptyString)) (Inputplate_txt w) in
  let '(_, m', w') := InitPlateFromTxt oldHeatDist m exported in
  (0%Z, three_updates m',
   print (("Printing input plate after 3 updates..." ++ endl)
          ++ OutputPlate (load oldHeatDist (three_updates m')) EmptyString) w').
Proof.
  intros Hopen. unfold main_after_loop, ExportPlateToCSV. cbv zeta.
  rewrite !print_print, csv_opens_print, Hopen. cbn [negb Z.eqb].
  rewrite cout_print, Inputplate_txt_print.
  unfold text_before_export, three_updates. rewrite !append_assoc.
  destruct (InitPlateFromTxt oldHeatDist m _) as [[status m'] w'].
  rewrite print_print. reflexivity.
Qed.

(** C5. When [Hotplate.csv] cannot be opened, [ExportPlateToCSV] prints
    the diagnostic ["Could not open file Hotplate.csv"] and returns the
    status 1, writing no file, and [main] then prints its error message
    and returns the exit status 1; when the file can be opened, [main]
    runs to its end and returns the exit status 0. *)
Theorem export_failure_exits_with_1 (m : memory) (w : world) :
  (csv_opens w = false ->
   (forall (a : array) (t : memory),
      ExportPlateToCSV a t w
      = (1%Z, World (cout w ++ "Could not open file Hotplate.csv" ++ endl)
                false (Hotplate_csv w) (Inputplate_txt w)))
   /\ exists (final : memory) (printed : string),
        main m w =
        Some (1%Z, final,
              World (cout w ++ printed
                       ++ ("Could not open file Hotplate.csv" ++ endl)
                       ++ "Error occurred when writing to CSV")
                false (Hotplate_csv w) (Inputplate_txt w)))
  /\ (csv_opens w = true ->
      exists (final : memory) (w' : world), main m w = Some (0%Z, final, w')).
Proof.
  destruct (main_passes_loop m w) as (d & _ & Hmain). split.
  - intros Hclosed. split.
    + intros a t. unfold ExportPlateToCSV, print. rewrite Hclosed. reflexivity.
    + exists (mem d).
      exists (text_before_loop (InitPlate newHeatDist (InitPlate oldHeatDist m))
                (UpdateTemps oldHeatDist newHeatDist
                   (InitPlate newHeatDist (InitPlate oldHeatDist m)))
              ++ text_before_export (mem d)).
      rewrite Hmain, main_after_loop_export_fails
        by (rewrite csv_opens_print; exact Hclosed).
      rewrite cout_print, Hotplate_csv_print, Inputplate_txt_print.
      rewrite !append_assoc. reflexivity.
  - intros Hopen.
    rewrite Hmain, main_after_loop_export_succeeds
      by (rewrite csv_opens_print; exact Hopen).
    cbv zeta.
    destruct (InitPlateFromTxt oldHeatDist (mem d) _) as [[status m'] w'].
    exists (three_updates m'). eexists. reflexivity.
Qed.

Lemma export_failure_exits_with_1_witness :
  exists (final : memory) (printed : string),
    main (Memory (uniform 0%float) (uniform 0%float)) (World EmptyString false None None) =
    Some (1%Z, final,
          World (printed ++ ("Could not open file Hotplate.csv" ++ endl)
                   ++ "Error occurred when writing to CSV")
            false None None).
Proof.
  destruct (proj2 (proj1 (export_failure_exits_with_1
                            (Memory (uniform 0%float) (uniform 0%float))
                            (World EmptyString false None None)) eq_refl))
    as (final & printed & Hmain).
  exists final, printed.
  rewrite Hmain, cout_World, Hotplate_csv_World, Inputplate_txt_World, append_empty_l.
  reflexivity.
Defined.



(** C10. When [InitPlateFromTxt] cannot open the input file it returns
    before it writes a cell: the memory it returns is the memory it was
    given, so the array passed to it, and the other one, are unchanged. *)
Theorem import_failure_leaves_plate (passedHeatDist : array) (m : memory) (w : world) :
  Inputplate_txt w = None ->
  (InitPlateFromTxt passedHeatDist m w).1.2 = m
  /\ load passedHeatDist (InitPlateFromTxt passedHeatDist m w).1.2
     = load passedHeatDist m.
Proof.
  intros Hmissing. unfold InitPlateFromTxt. rewrite Hmissing. split; reflexivity.
Qed.

Lemma import_failure_leaves_plate_witness :
  load oldHeatDist
    (InitPlateFromTxt oldHeatDist (Memory initial_plate (uniform 0%float))
       (World EmptyString true None None)).1.2
  = initial_plate.
Proof.
  exact (proj2 (import_failure_leaves_plate oldHeatDist
                  (Memory initial_plate (uniform 0%float))
                  (World EmptyString true None None) eq_refl)).
Defined.

End WholeProgram.

(** ** The text format *)

Lemma foldl_append (f : nat -> string) (idx : list nat) (s : string) :
  foldl (fun acc i => (acc ++ f i)%string) s idx
  = (s ++ String.concat EmptyString (map f idx))%string.
Proof.
  revert s. induction idx as [|i idx IH]; intros s; simpl.
  - rewrite append_empty_r. reflexivity.
  - rewrite IH, append_assoc. destruct idx as [|k idx]; simpl.
    + rewrite append_empty_r. reflexivity.
    + reflexivity.
Qed.

Lemma for_loop_append (lo hi : nat) (f : nat -> string) (s : string) :
  for_loop lo hi (fun i acc => (acc ++ f i)%string) s
  = (s ++ String.concat EmptyString (map f (seq lo (hi - lo))))%string.
Proof. apply foldl_append. Qed.

(** The loops of [OutputPlate] write the rows of the specification. *)
Lemma OutputPlate_rendered (passedHeatDist : plate) (outputStream : ostream) :
  OutputPlate passedHeatDist outputStream
  = (outputStream ++ rendered_plate passedHeatDist)%string.
Proof.
  unfold OutputPlate, rendered_plate.
  rewrite (for_loop_ext _ _ _
             (fun i acc => (acc ++ rendered_row passedHeatDist i)%string)).
  - rewrite for_loop_append, Nat.sub_0_r. reflexivity.
  - intros i s _.
    set (g := fun j : nat =>
                (field (cell passedHeatDist i j)
                 ++ if negb (j =? PLATE_SIZE - 1)%nat then "," else EmptyString)%string).
    rewrite (for_loop_ext _ _ _ (fun j acc => (acc ++ g j)%string)).
    + rewrite for_loop_append, append_assoc. f_equal.
      unfold rendered_row. f_equal.
      cbv [seq map String.concat g negb Nat.eqb PLATE_SIZE Nat.sub].
      rewrite !append_assoc, !append_empty_l, append_empty_r. reflexivity.
    + intros j acc _. unfold g, field.
      destruct (negb (j =? PLATE_SIZE - 1)).
      * rewrite append_assoc. reflexivity.
      * rewrite append_empty_r. reflexivity.
Qed.

Lemma length_setw (width : nat) (text : string) :
  String.length (setw width text) = Nat.max width (String.length text).
Proof. unfold setw. rewrite length_append, length_spaces. lia. Qed.

Lemma length_last_digits (k : nat) (n : Z) : String.length (last_digits k n) = k.
Proof.
  revert n. induction k as [|k IH]; intros n; simpl; [reflexivity|].
  rewrite length_append, IH. simpl. lia.
Qed.

Lemma all_digits_append (s t : string) :
  all_digits (s ++ t) = all_digits s && all_digits t.
Proof.
  induction s as [|c s IH]; simpl; [reflexivity|].
  rewrite IH, andb_assoc. reflexivity.
Qed.

Lemma all_digits_last_digits (k : nat) (n : Z) : all_digits (last_digits k n) = true.
Proof.
  revert n. induction k as [|k IH]; intros n; simpl; [reflexivity|].
  rewrite all_digits_append, IH. cbn [all_digits andb]. rewrite andb_true_r.
  pose proof (Z.mod_pos_bound n 10 eq_refl) as Hdigit.
  unfold is_digit. rewrite nat_ascii_embedding by lia.
  apply andb_true_iff. split; [apply Nat.leb_le | apply Nat.leb_le]; lia.
Qed.

Lemma all_digits_string_of_uint (d : Decimal.uint) :
  all_digits (NilEmpty.string_of_uint d) = true.
Proof. induction d; simpl; try reflexivity; exact IHd. Qed.

Lemma all_digits_decimal (d : Decimal.uint) :
  all_digits (NilZero.string_of_uint d) = true
  /\ NilZero.string_of_uint d <> EmptyString.
Proof.
  destruct d; simpl; split; try reflexivity; try discriminate;
    apply (all_digits_string_of_uint d).
Qed.

Lemma field_shape (x : float) :
  exists blanks : string,
    field x = (blanks ++ fixed_text OUTPUT_PRECISION x)%string
    /\ all_blank blanks = true
    /\ String.length (field x)
       = Nat.max OUTPUT_WIDTH (String.length (fixed_text OUTPUT_PRECISION x)).
Proof.
  exists (spaces (OUTPUT_WIDTH - String.length (fixed_text OUTPUT_PRECISION x))).
  split; [reflexivity|]. split; [apply all_blank_spaces | apply length_setw].
Qed.

Lemma fixed_text_shape (prec : nat) (x : float) :
  finite x = true ->
  exists sign whole frac : string,
    fixed_text prec x = (sign ++ whole ++ "." ++ frac)%string
    /\ (sign = EmptyString \/ sign = "-"%string)
    /\ whole <> EmptyString /\ all_digits whole = true
    /\ String.length frac = prec /\ all_digits frac = true.
Proof.
  unfold finite, fixed_text. destruct (Prim2SF x) as [s|s| |s m e]; try discriminate.
  - intros _. exists (sign_text s), "0"%string, (last_digits prec 0).
    repeat split; try discriminate.
    + destruct s; [right | left]; reflexivity.
    + apply length_last_digits.
    + apply all_digits_last_digits.
  - intros _. cbv zeta.
    set (whole := NilZero.string_of_uint _).
    exists (sign_text s), whole, (last_digits prec (scaled_round prec m e)).
    repeat split.
    + destruct s; [right | left]; reflexivity.
    + apply all_digits_decimal.
    + apply all_digits_decimal.
    + apply length_last_digits.
    + apply all_digits_last_digits.
Qed.

(** C8, as the program has it. [OutputPlate] writes 10 lines of 10 fields
    in row-major order, a comma between two fields of a row and none after
    the last. Each field is the value in fixed notation with precision 3,
    with blanks in front up to a width of 9: the field has 9 characters
    when the text of the value has at most 9, and is the whole text, wider
    than 9, otherwise. The text of a finite value is an optional minus
    sign, the digits of the integer part, a point and exactly 3 digits.
    For an array of zeros every field is four blanks and [0.000]. What
    [ExportPlateToCSV] writes to [Hotplate.csv] is the text [OutputPlate]
    appends to the console for the same array. *)
Theorem OutputPlate_text_format (passedHeatDist : plate) (outputStream : ostream) :
  OutputPlate passedHeatDist outputStream
    = (outputStream ++ rendered_plate passedHeatDist)%string
  /\ (forall x : float,
        exists blanks : string,
          field x = (blanks ++ fixed_text 3 x)%string
          /\ all_blank blanks = true
          /\ String.length (field x) = Nat.max 9 (String.length (fixed_text 3 x)))
  /\ (forall x : float,
        finite x = true ->
        exists sign whole frac : string,
          fixed_text 3 x = (sign ++ whole ++ "." ++ frac)%string
          /\ (sign = EmptyString \/ sign = "-"%string)
          /\ whole <> EmptyString /\ all_digits whole = true
          /\ String.length frac = 3 /\ all_digits frac = true)
  /\ field 0%float = "    0.000"%string
  /\ rendered_plate (uniform 0%float)
     = String.concat EmptyString
         (replicate 10
            (String.concat "," (replicate 10 "    0.000"%string) ++ endl)%string)
  /\ (forall (a : array) (m : memory) (w : world),
        csv_opens w = true ->
        ExportPlateToCSV a m w
        = (0%Z, World (cout w) true (Some (rendered_plate (load a m)))
                  (Inputplate_txt w))).
Proof.
  split; [apply OutputPlate_rendered|].
  split; [exact field_shape|].
  split; [apply fixed_text_shape|].
  split; [vm_compute; reflexivity|].
  split; [vm_compute; reflexivity|].
  intros a m w Hopen. unfold ExportPlateToCSV. rewrite Hopen. cbv zeta.
  rewrite OutputPlate_rendered. reflexivity.
Qed.

Lemma OutputPlate_text_format_witness :
  (exists sign whole frac : string,
     fixed_text 3 25%float = (sign ++ whole ++ "." ++ frac)%string
     /\ (sign = EmptyString \/ sign = "-"%string)
     /\ whole <> EmptyString /\ all_digits whole = true
     /\ String.length frac = 3 /\ all_digits frac = true)
  /\ ExportPlateToCSV oldHeatDist (Memory initial_plate initial_plate)
       (World EmptyString true None None)
     = (0%Z, World EmptyString true (Some (rendered_plate initial_plate)) None).
Proof.
  destruct (OutputPlate_text_format initial_plate EmptyString)
    as (_ & _ & Hdigits & _ & _ & Hcsv).
  split.
  - apply Hdigits. reflexivity.
  - apply (Hcsv oldHeatDist (Memory initial_plate initial_plate)
             (World EmptyString true None None)). reflexivity.
Defined.

(** C8 as stated fails on the width of the column: [setw] sets a least
    width and cuts nothing, so a value of a million takes 11 characters,
    and the first row of a plate of such values starts with that field
    and its comma. *)
Lemma OutputPlate_field_wider_than_9 :
  well_sized (uniform 1000000%float) = true
  /\ field (cell (uniform 1000000%float) 0 0) = "1000000.000"%string
  /\ String.length (field (cell (uniform 1000000%float) 0 0)) = 11
  /\ substring 0 12 (OutputPlate (uniform 1000000%float) EmptyString)
     = "1000000.000,"%string.
Proof. repeat split; vm_compute; reflexivity. Qed.

(** ** Binary64 arithmetic: the mean of four copies of a number

    The operations of the primitive floats are specified by the functions
    of [SpecFloat] on sign, mantissa and exponent. Rounding a positive
    integer mantissa [M] at exponent [E] shifts it right by as many bits
    as it has beyond 53 and rounds to nearest, ties to even. The lemmas
    below follow [c + c], [(c + c) + c], [((c + c) + c) + c] and the
    division by 4 through these functions. *)

Section Binary64.
Local Open Scope Z_scope.

Ltac in_range_exponent :=
  rewrite (proj2 (Z.leb_le _ (emax - prec))) by (unfold emax, prec; lia).

(** A positive number with [d] binary digits lies between [2^(d-1)] and [2^d]. *)
Lemma digits2_pos_bounds (p : positive) :
  2 ^ (Z.pos (digits2_pos p) - 1) <= Z.pos p < 2 ^ Z.pos (digits2_pos p).
Proof.
  induction p as [p IH|p IH|]; simpl digits2_pos.
  - rewrite Pos2Z.inj_succ. replace (Z.succ (Z.pos (digits2_pos p)) - 1) with (Z.succ (Z.pos (digits2_pos p) - 1)) by lia.
    rewrite !Z.pow_succ_r by lia. lia.
  - rewrite Pos2Z.inj_succ. replace (Z.succ (Z.pos (digits2_pos p)) - 1) with (Z.succ (Z.pos (digits2_pos p) - 1)) by lia.
    rewrite !Z.pow_succ_r by lia. lia.
  - simpl. lia.
Qed.

(** The number of binary digits is the only [d] with these bounds. *)
Lemma digits2_pos_unique (p : positive) (d : Z) :
  2 ^ (d - 1) <= Z.pos p < 2 ^ d -> Z.pos (digits2_pos p) = d.
Proof.
  intros [Hlo Hhi]. pose proof (digits2_pos_bounds p) as [Hlo' Hhi'].
  assert (0 < d) as Hd.
  { destruct (Z.lt_ge_cases 0 d) as [|Hneg]; [assumption|].
    exfalso. destruct (Z.eq_dec d 0) as [->|].
    - simpl in Hhi. lia.
    - rewrite Z.pow_neg_r in Hhi by lia. lia. }
  destruct (Z.lt_trichotomy (Z.pos (digits2_pos p)) d) as [Hlt|[Heq|Hgt]]; [|exact Heq|].
  - exfalso. assert (2 ^ Z.pos (digits2_pos p) <= 2 ^ (d - 1)) by (apply Z.pow_le_mono_r; lia). lia.
  - exfalso. assert (2 ^ d <= 2 ^ (Z.pos (digits2_pos p) - 1)) by (apply Z.pow_le_mono_r; lia). lia.
Qed.

(** One step of the right shift: the mantissa is halved, the bit shifted
    out becomes the round bit and the old round bit goes to the sticky bit. *)
Lemma shr_1_nonneg (M : Z) (r s : bool) :
  0 <= M ->
  shr_1 {| shr_m := M; shr_r := r; shr_s := s |}
  = {| shr_m := Z.div2 M; shr_r := Z.odd M; shr_s := r || s |}.
Proof.
  intros HM. destruct M as [|p|p]; [reflexivity | | lia].
  destruct p; reflexivity.
Qed.

(** The half and the parity of [2 a + b] for a bit [b]. *)
Lemma div2_odd_split (a b : Z) :
  b = 0 \/ b = 1 -> Z.div2 (2 * a + b) = a /\ Z.odd (2 * a + b) = (b =? 1).
Proof.
  intros Hb. rewrite Z.div2_div. split.
  - destruct Hb as [-> | ->]; Z.div_mod_to_equations; lia.
  - destruct Hb as [-> | ->].
    + rewrite Z.add_0_r, Z.odd_mul. reflexivity.
    + rewrite Z.add_comm, Z.odd_add_mul_2. reflexivity.
Qed.

Lemma fexp_unfold (z : Z) : fexp prec emax z = Z.max (z - 53) (-1074).
Proof. reflexivity. Qed.

(** A mantissa that is canonical for its exponent is not rounded. *)
Lemma round_exact_0 (s : bool) (p : positive) (E : Z) :
  fexp prec emax (Z.pos (digits2_pos p) + E) = E ->
  binary_round_aux prec emax s (Z.pos p) E loc_Exact
  = if E <=? emax - prec then S754_finite s p E else S754_infinity s.
Proof.
  intros Hcanon. unfold binary_round_aux, shr_fexp. simpl Zdigits2.
  rewrite Hcanon, Z.sub_diag.
  cbn [shr shr_record_of_loc loc_of_shr_record round_nearest_even shr_m Zdigits2].
  rewrite Hcanon, Z.sub_diag. reflexivity.
Qed.

(** A mantissa of 54 bits loses one bit: the result is the [t] that is
    nearest to its half, the even one of two nearest. *)
Lemma round_near_1 (s : bool) (p : positive) (E t : Z) :
  -1074 <= E ->
  2 ^ 53 <= Z.pos p < 2 ^ 54 ->
  (Z.pos p = 2 * t \/ ((Z.pos p = 2 * t + 1 \/ Z.pos p = 2 * t - 1) /\ Z.even t = true)) ->
  t < 2 ^ 53 ->
  binary_round_aux prec emax s (Z.pos p) E loc_Exact
  = if E + 1 <=? emax - prec then S754_finite s (Z.to_pos t) (E + 1) else S754_infinity s.
Proof.
  intros HE Hp Ht Htop.
  assert (Z.pos (digits2_pos p) = 54) as Hd by (apply digits2_pos_unique; exact Hp).
  assert (2 ^ 52 <= t) as Hbot by lia.
  assert (Z.pos (digits2_pos (Z.to_pos t)) = 53) as Hdt.
  { apply digits2_pos_unique. rewrite Z2Pos.id by lia. lia. }
  unfold binary_round_aux, shr_fexp. simpl Zdigits2. rewrite Hd.
  replace (fexp prec emax (54 + E) - E) with 1 by (rewrite fexp_unfold; lia).
  cbn [shr SpecFloat.iter_pos shr_record_of_loc]. rewrite shr_1_nonneg by lia.
  cbn [shr_m].
  assert (round_nearest_even (Z.div2 (Z.pos p))
            (loc_of_shr_record {| shr_m := Z.div2 (Z.pos p); shr_r := Z.odd (Z.pos p); shr_s := false || false |})
          = t) as ->.
  { destruct Ht as [Heq | [[Heq | Heq] Heven]].
    - destruct (div2_odd_split t 0) as [Hq Ho]; [left; reflexivity|].
      rewrite Heq. replace (2 * t) with (2 * t + 0) by lia. rewrite Hq, Ho. reflexivity.
    - destruct (div2_odd_split t 1) as [Hq Ho]; [right; reflexivity|].
      rewrite Heq, Hq, Ho. simpl. rewrite Heven. reflexivity.
    - destruct (div2_odd_split (t - 1) 1) as [Hq Ho]; [right; reflexivity|].
      replace (Z.pos p) with (2 * (t - 1) + 1) by lia. rewrite Hq, Ho. simpl.
      replace (Z.even (t - 1)) with false; [lia|].
      rewrite Z.even_sub, Heven. reflexivity. }
  destruct t as [|tp|tp]; try lia. simpl Zdigits2. simpl Z.to_pos in Hdt. rewrite Hdt.
  replace (fexp prec emax (53 + (E + 1)) - (E + 1)) with 0 by (rewrite fexp_unfold; lia).
  reflexivity.
Qed.

(** A mantissa of 55 bits loses two bits: the result is the [t] that is
    nearest to its quarter, the even one of two nearest. *)
Lemma round_near_2 (s : bool) (p : positive) (E t delta : Z) :
  -1074 <= E ->
  2 ^ 54 <= Z.pos p < 2 ^ 55 ->
  Z.pos p = 4 * t + delta ->
  (-1 <= delta <= 1 \/ ((delta = 2 \/ delta = -2) /\ Z.even t = true)) ->
  t < 2 ^ 53 ->
  binary_round_aux prec emax s (Z.pos p) E loc_Exact
  = if E + 2 <=? emax - prec then S754_finite s (Z.to_pos t) (E + 2) else S754_infinity s.
Proof.
  intros HE Hp Heq Hdelta Htop.
  assert (Z.pos (digits2_pos p) = 55) as Hd by (apply digits2_pos_unique; exact Hp).
  assert (2 ^ 52 <= t) as Hbot by lia.
  assert (Z.pos (digits2_pos (Z.to_pos t)) = 53) as Hdt.
  { apply digits2_pos_unique. rewrite Z2Pos.id by lia. lia. }
  unfold binary_round_aux, shr_fexp. simpl Zdigits2. rewrite Hd.
  replace (fexp prec emax (55 + E) - E) with 2 by (rewrite fexp_unfold; lia).
  cbn [shr SpecFloat.iter_pos shr_record_of_loc].
  rewrite shr_1_nonneg by lia.
  rewrite shr_1_nonneg by (rewrite Z.div2_div; Z.div_mod_to_equations; lia).
  cbn [shr_m].
  assert (round_nearest_even (Z.div2 (Z.div2 (Z.pos p)))
            (loc_of_shr_record
               {| shr_m := Z.div2 (Z.div2 (Z.pos p));
                  shr_r := Z.odd (Z.div2 (Z.pos p));
                  shr_s := Z.odd (Z.pos p) || (false || false) |})
          = t) as ->.
  { assert (forall a b1 b0, (b1 = 0 \/ b1 = 1) -> (b0 = 0 \/ b0 = 1) ->
              Z.pos p = 4 * a + 2 * b1 + b0 ->
              Z.div2 (Z.div2 (Z.pos p)) = a
              /\ Z.odd (Z.div2 (Z.pos p)) = (b1 =? 1)
              /\ Z.odd (Z.pos p) = (b0 =? 1)) as Hbits.
    { intros a b1 b0 Hb1 Hb0 Hsplit.
      destruct (div2_odd_split (2 * a + b1) b0 Hb0) as [Hq0 Ho0].
      destruct (div2_odd_split a b1 Hb1) as [Hq1 Ho1].
      replace (Z.pos p) with (2 * (2 * a + b1) + b0) by lia.
      rewrite Hq0, Ho0, Hq1, Ho1. auto. }
    assert (delta = -2 \/ delta = -1 \/ delta = 0 \/ delta = 1 \/ delta = 2)
      as [-> | [-> | [-> | [-> | ->]]]] by lia.
    - destruct (Hbits (t - 1) 1 0) as (-> & -> & ->); [auto | auto | lia |].
      simpl. destruct Hdelta as [? | [_ Heven]]; [lia|].
      replace (Z.even (t - 1)) with false; [lia|].
      rewrite Z.even_sub, Heven. reflexivity.
    - destruct (Hbits (t - 1) 1 1) as (-> & -> & ->); [auto | auto | lia |].
      simpl. lia.
    - destruct (Hbits t 0 0) as (-> & -> & ->); [auto | auto | lia |].
      reflexivity.
    - destruct (Hbits t 0 1) as (-> & -> & ->); [auto | auto | lia |].
      reflexivity.
    - destruct (Hbits t 1 0) as (-> & -> & ->); [auto | auto | lia |].
      simpl. destruct Hdelta as [? | [_ Heven]]; [lia|].
      rewrite Heven. reflexivity. }
  destruct t as [|tp|tp]; try lia. simpl Zdigits2. simpl Z.to_pos in Hdt. rewrite Hdt.
  replace (fexp prec emax (53 + (E + 2)) - (E + 2)) with 0 by (rewrite fexp_unfold; lia).
  reflexivity.
Qed.

(** The one mantissa of 54 bits whose half rounds up to [2^53]. *)
Lemma round_top_1 (s : bool) (E : Z) :
  -1074 <= E ->
  binary_round_aux prec emax s (2 ^ 54 - 1) E loc_Exact
  = if E + 2 <=? emax - prec then S754_finite s (Z.to_pos (2 ^ 52)) (E + 2)
    else S754_infinity s.
Proof.
  intros HE. unfold binary_round_aux, shr_fexp.
  change (Zdigits2 (2 ^ 54 - 1)) with 54.
  replace (fexp prec emax (54 + E) - E) with 1 by (rewrite fexp_unfold; lia).
  cbn [shr SpecFloat.iter_pos shr_record_of_loc].
  change (shr_1 {| shr_m := 2 ^ 54 - 1; shr_r := false; shr_s := false |})
    with {| shr_m := 2 ^ 53 - 1; shr_r := true; shr_s := false |}.
  cbn [shr_m loc_of_shr_record round_nearest_even].
  change (if Z.even (2 ^ 53 - 1) then 2 ^ 53 - 1 else 2 ^ 53 - 1 + 1) with (2 ^ 53).
  change (Zdigits2 (2 ^ 53)) with 54.
  replace (fexp prec emax (54 + (E + 1)) - (E + 1)) with 1 by (rewrite fexp_unfold; lia).
  cbn [shr SpecFloat.iter_pos shr_record_of_loc].
  change (shr_1 {| shr_m := 2 ^ 53; shr_r := false; shr_s := false |})
    with {| shr_m := 2 ^ 52; shr_r := false; shr_s := false |}.
  cbn [shr_m]. replace (E + 1 + 1) with (E + 2) by lia. reflexivity.
Qed.

(** Rounding a mantissa of 54 bits changes the value by at most one unit
    of the input exponent. *)
Lemma round_some_1 (s : bool) (p : positive) (E : Z) :
  -1074 <= E ->
  2 ^ 53 <= Z.pos p < 2 ^ 54 ->
  exists (t : positive) (e' delta : Z),
    binary_round_aux prec emax s (Z.pos p) E loc_Exact
    = (if e' <=? emax - prec then S754_finite s t e' else S754_infinity s)
    /\ ((e' = E + 1 /\ 2 * Z.pos t = Z.pos p + delta)
        \/ (e' = E + 2 /\ 4 * Z.pos t = Z.pos p + delta))
    /\ -1 <= delta <= 1.
Proof.
  intros HE Hp.
  destruct (Z.even (Z.pos p)) eqn:Hparity.
  - apply Z.even_spec in Hparity as [q Hq].
    exists (Z.to_pos q), (E + 1), 0. split; [|split; [left|lia]].
    + apply round_near_1; try assumption; [left; exact Hq | lia].
    + rewrite Z2Pos.id by lia. lia.
  - assert (Z.odd (Z.pos p) = true) as [q Hq]%Z.odd_spec
        by (rewrite <- Z.negb_even, Hparity; reflexivity).
    destruct (Z.even q) eqn:Hq_parity.
    + exists (Z.to_pos q), (E + 1), (-1). split; [|split; [left|lia]].
      * apply round_near_1; try assumption; [right; split; [left; exact Hq | exact Hq_parity] | lia].
      * rewrite Z2Pos.id by lia. lia.
    + destruct (Z.eq_dec (Z.pos p) (2 ^ 54 - 1)) as [Htop | Hbelow].
      * exists (Z.to_pos (2 ^ 52)), (E + 2), 1. split; [|split; [right|lia]].
        -- rewrite Htop. apply round_top_1, HE.
        -- rewrite Htop. split; reflexivity.
      * exists (Z.to_pos (q + 1)), (E + 1), 1. split; [|split; [left|lia]].
        -- apply round_near_1; try assumption; [right; split; [right; lia|] | lia].
           rewrite Z.even_add, Hq_parity. reflexivity.
        -- rewrite Z2Pos.id by lia. lia.
Qed.

(** Rounding a mantissa of 55 bits changes the value by at most two units
    of the input exponent. *)
Lemma round_some_2 (s : bool) (p : positive) (E : Z) :
  -1074 <= E ->
  2 ^ 54 <= Z.pos p < 2 ^ 55 - 2 ->
  exists (t : positive) (delta : Z),
    binary_round_aux prec emax s (Z.pos p) E loc_Exact
    = (if E + 2 <=? emax - prec then S754_finite s t (E + 2) else S754_infinity s)
    /\ 4 * Z.pos t = Z.pos p + delta
    /\ -2 <= delta <= 2.
Proof.
  intros HE Hp.
  pose proof (Z.div_mod (Z.pos p) 4 ltac:(lia)) as Hsplit.
  pose proof (Z.mod_pos_bound (Z.pos p) 4 ltac:(lia)) as Hrem.
  set (q := Z.pos p / 4) in *. set (r := Z.pos p mod 4) in *.
  assert (r = 0 \/ r = 1 \/ r = 2 \/ r = 3) as [Hr | [Hr | [Hr | Hr]]] by lia.
  - exists (Z.to_pos q), 0. split; [|split; [rewrite Z2Pos.id by lia; lia | lia]].
    apply round_near_2 with (delta := 0); try lia.
  - exists (Z.to_pos q), (-1). split; [|split; [rewrite Z2Pos.id by lia; lia | lia]].
    apply round_near_2 with (delta := 1); try lia.
  - destruct (Z.even q) eqn:Hq_parity.
    + exists (Z.to_pos q), (-2). split; [|split; [rewrite Z2Pos.id by lia; lia | lia]].
      apply round_near_2 with (delta := 2); try lia. right. split; [left; reflexivity | exact Hq_parity].
    + exists (Z.to_pos (q + 1)), 2. split; [|split; [rewrite Z2Pos.id by lia; lia | lia]].
      apply round_near_2 with (delta := -2); try lia.
      right. split; [right; reflexivity|]. rewrite Z.even_add, Hq_parity. reflexivity.
  - exists (Z.to_pos (q + 1)), 1. split; [|split; [rewrite Z2Pos.id by lia; lia | lia]].
    apply round_near_2 with (delta := -1); try lia.
Qed.

(** At the least exponent, or with at least 53 bits, no left shift
    precedes the rounding. *)
Lemma binary_round_canonical (s : bool) (p : positive) (E : Z) :
  E = -1074 \/ 2 ^ 52 <= Z.pos p ->
  binary_round prec emax s p E = binary_round_aux prec emax s (Z.pos p) E loc_Exact.
Proof.
  intros Hcase. unfold binary_round, shl_align.
  assert (0 <= fexp prec emax (Z.pos (digits2_pos p) + E) - E) as Hshift.
  { rewrite fexp_unfold. destruct Hcase as [-> | Hbig]; [lia|].
    pose proof (digits2_pos_bounds p) as [_ Hhi].
    assert (52 < Z.pos (digits2_pos p)); [|lia].
    apply (Z.pow_lt_mono_r_iff 2); lia. }
  destruct (fexp prec emax (Z.pos (digits2_pos p) + E) - E); try reflexivity; lia.
Qed.

(** Sum of two numbers of the same sign whose exponents differ by at most 2. *)
Lemma SFadd_aligned (s : bool) (m1 m2 p : positive) (e1 e2 : Z) :
  e1 = e2 \/ e1 = e2 + 1 \/ e1 = e2 + 2 ->
  Z.pos p = Z.pos m1 * 2 ^ (e1 - e2) + Z.pos m2 ->
  SFadd prec emax (S754_finite s m1 e1) (S754_finite s m2 e2)
  = binary_round prec emax s p e2.
Proof.
  intros Hexp Hsum. unfold SFadd.
  replace (Z.min e1 e2) with e2 by lia.
  assert (fst (shl_align m2 e2 e2) = m2) as ->
    by (unfold shl_align; rewrite Z.sub_diag; reflexivity).
  assert (Z.pos (fst (shl_align m1 e1 e2)) = Z.pos m1 * 2 ^ (e1 - e2)) as Halign.
  { unfold shl_align. destruct Hexp as [-> | [-> | ->]].
    - rewrite Z.sub_diag. simpl. lia.
    - replace (e2 - (e2 + 1)) with (-1) by lia. replace (e2 + 1 - e2) with 1 by lia.
      simpl. lia.
    - replace (e2 - (e2 + 2)) with (-2) by lia. replace (e2 + 2 - e2) with 2 by lia.
      simpl. lia. }
  set (a := fst (shl_align m1 e1 e2)) in *.
  assert (p = (a + m2)%positive) as -> by lia.
  destruct s; reflexivity.
Qed.

(** Division by 4 when the quotient mantissa [q] at the exponent [e'] of
    the division is exact. *)
Lemma SFdiv_four (s : bool) (M : positive) (E e' q : Z) :
  e' = Z.min (fexp prec emax (Z.pos (digits2_pos M) + E - 3)) (E + 50) ->
  0 < E + 50 - e' ->
  Z.pos M * 2 ^ (E + 50 - e') = q * 2 ^ 52 ->
  SFdiv prec emax (S754_finite s M E) four
  = binary_round_aux prec emax s q e' loc_Exact.
Proof.
  intros He' Hshift Hq. unfold four, SFdiv, SFdiv_core_binary.
  change (Zdigits2 4503599627370496) with 53. simpl Zdigits2.
  replace (Z.pos (digits2_pos M) + E - (53 + -50))
    with (Z.pos (digits2_pos M) + E - 3) by lia.
  replace (E - -50) with (E + 50) by lia.
  rewrite <- He'.
  destruct (E + 50 - e') as [|k|k] eqn:Hk; try lia.
  rewrite Z.shiftl_mul_pow2 by lia. rewrite Hq.
  change 4503599627370496 with (2 ^ 52).
  assert (Z.div_eucl (q * 2 ^ 52) (2 ^ 52) = (q, 0)) as ->.
  { pose proof (Z.div_mul q (2 ^ 52) ltac:(lia)) as Hdiv.
    pose proof (Z.mod_mul q (2 ^ 52) ltac:(lia)) as Hmod.
    unfold Z.div, Z.modulo in Hdiv, Hmod.
    destruct (Z.div_eucl (q * 2 ^ 52) (2 ^ 52)) as [a b]. simpl in Hdiv, Hmod.
    congruence. }
  rewrite xorb_false_r. reflexivity.
Qed.

(** The sum is the rounding of the sum of the aligned mantissas. *)
Lemma SFadd_round (s : bool) (m1 m2 p : positive) (e1 e2 : Z) :
  e1 = e2 \/ e1 = e2 + 1 \/ e1 = e2 + 2 ->
  Z.pos p = Z.pos m1 * 2 ^ (e1 - e2) + Z.pos m2 ->
  e2 = -1074 \/ 2 ^ 52 <= Z.pos p ->
  SFadd prec emax (S754_finite s m1 e1) (S754_finite s m2 e2)
  = binary_round_aux prec emax s (Z.pos p) e2 loc_Exact.
Proof.
  intros Hexp Hsum Hcanon.
  rewrite (SFadd_aligned s m1 m2 p e1 e2 Hexp Hsum).
  apply binary_round_canonical, Hcanon.
Qed.

Lemma pow2_diff_0 (e : Z) : 2 ^ (e - e) = 1.
Proof. rewrite Z.sub_diag. reflexivity. Qed.
Lemma pow2_diff_1 (e : Z) : 2 ^ (e + 1 - e) = 2.
Proof. replace (e + 1 - e) with 1 by lia. reflexivity. Qed.
Lemma pow2_diff_2 (e : Z) : 2 ^ (e + 2 - e) = 4.
Proof. replace (e + 2 - e) with 2 by lia. reflexivity. Qed.

Section MeanOfFourCopies.
Variables (s : bool) (m : positive) (e : Z).
Let x := S754_finite s m e.
Hypothesis Hexp : -1074 <= e <= 969.

(** The three additions for a normal [x] of mantissa [m] and exponent
    [e]: whatever [3 x] rounds to, the last sum rounds to [4 x]. *)
Lemma sum4_normal :
  2 ^ 52 <= Z.pos m < 2 ^ 53 ->
  SFadd prec emax (SFadd prec emax (SFadd prec emax x x) x) x
  = S754_finite s m (e + 2).
Proof.
  intros Hm. unfold x.
  (* x + x *)
  rewrite (SFadd_round s m m (m~0) e e);
    [| left; reflexivity | rewrite pow2_diff_0; lia | right; lia].
  rewrite (round_near_1 s (m~0) e (Z.pos m)); [| lia | lia | left; lia | lia].
  in_range_exponent. simpl Z.to_pos.
  (* 2x + x *)
  rewrite (SFadd_round s m m (m~0 + m) (e + 1) e);
    [| right; left; reflexivity | rewrite pow2_diff_1; lia | right; lia].
  assert (exists (t : positive) (e' delta : Z),
            binary_round_aux prec emax s (Z.pos (m~0 + m)) e loc_Exact
            = S754_finite s t e'
            /\ ((e' = e + 1 /\ 2 * Z.pos t = 3 * Z.pos m + delta /\ -1 <= delta <= 1)
                \/ (e' = e + 2 /\ 4 * Z.pos t = 3 * Z.pos m + delta /\ -2 <= delta <= 2)))
    as (t & e' & delta & -> & Hthree).
  { destruct (Z.lt_ge_cases (Z.pos (m~0 + m)) (2 ^ 54)) as [Hlt | Hge].
    - destruct (round_some_1 s (m~0 + m) e) as (t & e' & delta & Hr & Hcases & Hd);
        [lia | lia |].
      exists t, e', delta. split.
      + rewrite Hr. in_range_exponent. reflexivity.
      + destruct Hcases as [[-> Ht] | [-> Ht]]; [left | right]; repeat split; lia.
    - destruct (round_some_2 s (m~0 + m) e) as (t & delta & Hr & Ht & Hd);
        [lia | lia |].
      exists t, (e + 2), delta. split.
      + rewrite Hr. in_range_exponent. reflexivity.
      + right. repeat split; lia. }
  (* 3x + x *)
  assert (0 < 4 * Z.pos m + delta) as Hpos by lia.
  rewrite (SFadd_round s t m (Z.to_pos (4 * Z.pos m + delta)) e' e).
  - rewrite (round_near_2 s (Z.to_pos (4 * Z.pos m + delta)) e (Z.pos m) delta).
    + in_range_exponent. reflexivity.
    + lia.
    + rewrite Z2Pos.id by exact Hpos. lia.
    + rewrite Z2Pos.id by exact Hpos. reflexivity.
    + destruct (Z.le_gt_cases (Z.abs delta) 1) as [Hsmall | Hlarge]; [left; lia | right].
      destruct Hthree as [(_ & _ & ?) | (_ & Ht & Hd)]; [lia|].
      split; [lia|]. apply Z.even_spec.
      assert (delta = 2 \/ delta = -2) as [-> | ->] by lia.
      * exists (2 * Z.pos t - 1 - Z.pos m). lia.
      * exists (2 * Z.pos t + 1 - Z.pos m). lia.
    + lia.
  - destruct Hthree as [(-> & _) | (-> & _)]; auto.
  - rewrite Z2Pos.id by exact Hpos.
    destruct Hthree as [(-> & Ht & _) | (-> & Ht & _)];
      [rewrite pow2_diff_1 | rewrite pow2_diff_2]; lia.
  - right. rewrite Z2Pos.id by exact Hpos. lia.
Qed.
End MeanOfFourCopies.

Lemma digits2_pos_le_53 (p : positive) :
  Z.pos p < 2 ^ 53 -> Z.pos (digits2_pos p) <= 53.
Proof.
  intros Hp. pose proof (digits2_pos_bounds p) as [Hlo _].
  assert (Z.pos (digits2_pos p) - 1 < 53); [|lia].
  apply (Z.pow_lt_mono_r_iff 2); lia.
Qed.

Lemma canonical_subnormal (p : positive) :
  Z.pos p < 2 ^ 53 -> fexp prec emax (Z.pos (digits2_pos p) + -1074) = -1074.
Proof. intros Hp%digits2_pos_le_53. rewrite fexp_unfold. lia. Qed.

Lemma canonical_normal (p : positive) (E : Z) :
  -1074 <= E -> 2 ^ 52 <= Z.pos p < 2 ^ 53 ->
  fexp prec emax (Z.pos (digits2_pos p) + E) = E.
Proof.
  intros HE Hp. rewrite (digits2_pos_unique p 53) by exact Hp.
  rewrite fexp_unfold. lia.
Qed.

(** The three additions for a subnormal [x]: the sum [4 x] is exact, with
    53 bits or fewer at the least exponent or 54 bits halved. *)
Lemma sum4_subnormal (s : bool) (m : positive) :
  Z.pos m < 2 ^ 52 ->
  let x := S754_finite s m (-1074) in
  SFadd prec emax (SFadd prec emax (SFadd prec emax x x) x) x
  = if 4 * Z.pos m <? 2 ^ 53
    then S754_finite s (Z.to_pos (4 * Z.pos m)) (-1074)
    else S754_finite s (Z.to_pos (2 * Z.pos m)) (-1073).
Proof.
  intros Hm x. unfold x.
  (* x + x *)
  rewrite (SFadd_round s m m (m~0) (-1074) (-1074));
    [| left; reflexivity | rewrite pow2_diff_0; lia | left; reflexivity].
  rewrite round_exact_0 by (apply canonical_subnormal; lia).
  in_range_exponent.
  (* 2x + x *)
  rewrite (SFadd_round s (m~0) m (m~0 + m) (-1074) (-1074));
    [| left; reflexivity | rewrite pow2_diff_0; lia | left; reflexivity].
  destruct (Z.lt_ge_cases (Z.pos (m~0 + m)) (2 ^ 53)) as [Hlt | Hge].
  - rewrite round_exact_0 by (apply canonical_subnormal; lia).
    in_range_exponent.
    rewrite (SFadd_round s (m~0 + m) m (Z.to_pos (4 * Z.pos m)) (-1074) (-1074));
      [| left; reflexivity | rewrite pow2_diff_0; lia | left; reflexivity].
    destruct (Z.ltb_spec (4 * Z.pos m) (2 ^ 53)) as [Hsmall | Hlarge].
    + rewrite round_exact_0 by (apply canonical_subnormal; lia).
      in_range_exponent. reflexivity.
    + rewrite (round_near_1 s _ (-1074) (2 * Z.pos m)); [| lia | lia | left; lia | lia].
      in_range_exponent. reflexivity.
  - destruct (round_some_1 s (m~0 + m) (-1074)) as (t & e' & delta & -> & Hcases & Hd);
      [lia | lia |].
    assert (e' = -1073 \/ e' = -1072) as He' by (destruct Hcases as [[-> _] | [-> _]]; lia).
    in_range_exponent.
    assert (0 < 4 * Z.pos m + delta) as Hpos by lia.
    rewrite (SFadd_round s t m (Z.to_pos (4 * Z.pos m + delta)) e' (-1074)).
    + rewrite (round_near_1 s _ (-1074) (2 * Z.pos m)).
      * destruct (Z.ltb_spec (4 * Z.pos m) (2 ^ 53)) as [Hsmall | Hlarge]; [lia|].
        in_range_exponent. reflexivity.
      * lia.
      * rewrite Z2Pos.id by exact Hpos. lia.
      * rewrite Z2Pos.id by exact Hpos.
        assert (delta = 0 \/ delta = 1 \/ delta = -1) as [-> | [-> | ->]] by lia.
        -- left. lia.
        -- right. split; [left; lia|]. rewrite Z.even_mul. reflexivity.
        -- right. split; [right; lia|]. rewrite Z.even_mul. reflexivity.
      * lia.
    + destruct He' as [-> | ->]; auto.
    + rewrite Z2Pos.id by exact Hpos.
      destruct Hcases as [[-> Ht] | [-> Ht]].
      * change (2 ^ (-1074 + 1 - -1074)) with 2. lia.
      * change (2 ^ (-1074 + 2 - -1074)) with 4. lia.
    + left. reflexivity.
Qed.

(** A quarter of [4 x] for a normal [x]. *)
Lemma quarter_normal (s : bool) (m : positive) (e : Z) :
  -1074 <= e <= 969 ->
  2 ^ 52 <= Z.pos m < 2 ^ 53 ->
  SFdiv prec emax (S754_finite s m (e + 2)) four = S754_finite s m e.
Proof.
  intros He Hm.
  assert (Z.pos (digits2_pos m) = 53) as Hd by (apply digits2_pos_unique; exact Hm).
  destruct (Z.eq_dec e (-1074)) as [-> | Hne].
  - rewrite (SFdiv_four s m _ (-1074) (Z.pos m)).
    + rewrite round_exact_0 by (apply canonical_normal; lia).
      in_range_exponent. reflexivity.
    + rewrite Hd. reflexivity.
    + reflexivity.
    + change (2 ^ (-1074 + 2 + 50 - -1074)) with (2 ^ 52). reflexivity.
  - rewrite (SFdiv_four s m _ (e - 1) (Z.pos m~0)).
    + rewrite (round_near_1 s _ (e - 1) (Z.pos m)); [| lia | lia | left; lia | lia].
      replace (e - 1 + 1) with e by lia. in_range_exponent. reflexivity.
    + rewrite Hd, fexp_unfold. lia.
    + lia.
    + replace (e + 2 + 50 - (e - 1)) with 53 by lia. lia.
Qed.

(** A quarter of [4 x] for a subnormal [x]. *)
Lemma quarter_subnormal (s : bool) (m : positive) :
  Z.pos m < 2 ^ 52 ->
  SFdiv prec emax
    (if 4 * Z.pos m <? 2 ^ 53
     then S754_finite s (Z.to_pos (4 * Z.pos m)) (-1074)
     else S754_finite s (Z.to_pos (2 * Z.pos m)) (-1073)) four
  = S754_finite s m (-1074).
Proof.
  intros Hm. destruct (Z.ltb_spec (4 * Z.pos m) (2 ^ 53)) as [Hsmall | Hlarge].
  - rewrite (SFdiv_four s _ _ (-1074) (Z.pos m)).
    + rewrite round_exact_0 by (apply canonical_subnormal; lia).
      in_range_exponent. reflexivity.
    + pose proof (digits2_pos_le_53 (Z.to_pos (4 * Z.pos m))) as Hd.
      rewrite Z2Pos.id in Hd by lia. specialize (Hd Hsmall).
      rewrite fexp_unfold. lia.
    + reflexivity.
    + rewrite Z2Pos.id by lia. change (2 ^ (-1074 + 50 - -1074)) with (2 ^ 50). lia.
  - rewrite (SFdiv_four s _ _ (-1074) (Z.pos m)).
    + rewrite round_exact_0 by (apply canonical_subnormal; lia).
      in_range_exponent. reflexivity.
    + rewrite (digits2_pos_unique _ 53) by (rewrite Z2Pos.id by lia; lia).
      reflexivity.
    + reflexivity.
    + rewrite Z2Pos.id by lia. change (2 ^ (-1073 + 50 - -1074)) with (2 ^ 51). lia.
Qed.

(** The mean of four copies of a number below [2^1022] in magnitude. *)
Lemma SF_mean_of_four_copies (x : spec_float) :
  valid_binary x = true ->
  SFltb (SFabs x) two_1022 = true ->
  SFdiv prec emax
    (SFadd prec emax (SFadd prec emax (SFadd prec emax x x) x) x) four = x.
Proof.
  intros Hvalid Hbelow. destruct x as [s|s| |s m e]; try discriminate.
  - destruct s; reflexivity.
  - simpl in Hvalid. apply andb_true_iff in Hvalid as [Hcanon Hemax].
    apply Z.eqb_eq in Hcanon. apply Z.leb_le in Hemax. rewrite fexp_unfold in Hcanon.
    pose proof (digits2_pos_bounds m) as Hm.
    destruct (Z.eq_dec (Z.pos (digits2_pos m)) 53) as [Hd | Hd].
    + rewrite Hd in Hm.
      assert (e <= 969) as Hexp.
      { unfold SFltb, two_1022 in Hbelow. cbn [SFabs SFcompare] in Hbelow.
        destruct (Z.compare_spec e 970) as [-> | Hlt | Hgt]; [| lia | discriminate].
        rewrite Pos.compare_cont_spec in Hbelow.
        destruct (Pos.compare_spec m 4503599627370496) as [| Hlt |];
          cbn [Pos.switch_Eq] in Hbelow; try discriminate.
        apply Pos2Z.pos_lt_pos in Hlt. lia. }
      rewrite sum4_normal by (simpl; lia). apply quarter_normal; simpl in *; lia.
    + assert (e = -1074) as -> by lia.
      assert (Z.pos m < 2 ^ 52) as Hsub.
      { destruct Hm as [_ Hhi]. eapply Z.lt_le_trans; [exact Hhi|].
        apply Z.pow_le_mono_r; lia. }
      rewrite sum4_subnormal by exact Hsub. apply quarter_subnormal, Hsub.
Qed.

(** The same for the primitive floats. *)
Lemma average_of_four_copies (c : float) :
  (abs c <? 0x1p+1022)%float = true ->
  ((c + c + c + c) / 4)%float = c.
Proof.
  intros Hbelow. apply Prim2SF_inj.
  rewrite div_spec, !add_spec.
  change (Prim2SF 4) with four.
  apply SF_mean_of_four_copies; [apply Prim2SF_valid|].
  rewrite ltb_spec, abs_spec in Hbelow. exact Hbelow.
Qed.
End Binary64.

(** ** The uniform plate *)

Lemma cell_uniform (c : float) (i j : nat) :
  i < PLATE_SIZE -> j < PLATE_SIZE -> cell (uniform c) i j = c.
Proof.
  intros Hi Hj. unfold cell, uniform.
  rewrite lookup_replicate_2 by exact Hi.
  rewrite lookup_replicate_2 by exact Hj. reflexivity.
Qed.

Lemma well_sized_uniform (c : float) : well_sized (uniform c) = true.
Proof.
  apply well_sized_spec. unfold uniform. split.
  - apply length_replicate.
  - intros i r [-> _]%lookup_replicate. apply length_replicate.
Qed.

Lemma border_in_plate (i j : nat) :
  border i j = true -> i < PLATE_SIZE /\ j < PLATE_SIZE.
Proof.
  unfold border, in_range.
  intros [[[_ Hi]%andb_true_iff [_ Hj]%andb_true_iff]%andb_true_iff _]%andb_true_iff.
  apply Nat.ltb_lt in Hi, Hj. split; assumption.
Qed.

Lemma neighbour_mean_uniform (c : float) (i j : nat) :
  interior i j = true -> neighbour_mean (uniform c) i j = average4 c c c c.
Proof.
  unfold interior, in_range, PLATE_SIZE.
  intros [[Hi1 Hi2]%andb_true_iff [Hj1 Hj2]%andb_true_iff]%andb_true_iff.
  apply Nat.leb_le in Hi1, Hj1. apply Nat.ltb_lt in Hi2, Hj2.
  unfold neighbour_mean.
  rewrite !cell_uniform by (unfold PLATE_SIZE; lia). reflexivity.
Qed.

(** One relaxation step from an array that holds the constant [c] into an
    array whose border holds [c] gives the constant array exactly when the
    mean of four copies of [c], computed in binary64, is [c]. *)
Lemma UpdateTemps_uniform (inputHeatDist outputHeatDist : array) (m : memory) (c : float) :
  inputHeatDist <> outputHeatDist ->
  load inputHeatDist m = uniform c ->
  well_sized (load outputHeatDist m) = true ->
  (forall i j, border i j = true -> cell (load outputHeatDist m) i j = c) ->
  load outputHeatDist (UpdateTemps inputHeatDist outputHeatDist m) = uniform c
  <-> average4 c c c c = c.
Proof.
  intros Hne Hin Hout Hborder.
  destruct (UpdateTemps_cells inputHeatDist outputHeatDist m Hne Hout)
    as (Hsz & _ & Hcells).
  rewrite Hin in Hcells. split.
  - intros Hfixed.
    rewrite <- (neighbour_mean_uniform c 1 1 eq_refl).
    specialize (Hcells 1 1). rewrite Hfixed in Hcells.
    rewrite cell_uniform in Hcells by (unfold PLATE_SIZE; lia).
    exact (eq_sym Hcells).
  - intros Hmean. apply plate_ext; [exact Hsz | apply well_sized_uniform |].
    intros i j Hi Hj. rewrite Hcells, cell_uniform by assumption.
    destruct (interior i j) eqn:Hint.
    + rewrite neighbour_mean_uniform by assumption. exact Hmean.
    + apply Hborder. unfold border. rewrite Hint.
      apply Nat.ltb_lt in Hi, Hj. unfold in_range. simpl.
      rewrite Hi, Hj. reflexivity.
Qed.

(** C6, as the program has it. When the input array holds the same
    constant [c] in every cell, the border of the output array holds [c]
    too, and [c] is below 2^1022 in magnitude, so that the sum of four
    copies of it does not overflow, one call of [UpdateTemps] leaves [c]
    in every cell of the output array (and of the input array): in
    binary64 arithmetic the mean [(c + c + c + c) / 4] is exactly [c], for
    normal and subnormal numbers alike. *)
Theorem UpdateTemps_uniform_fixed_point
    (inputHeatDist outputHeatDist : array) (m : memory) (c : float) :
  inputHeatDist <> outputHeatDist ->
  (abs c <? 0x1p+1022)%float = true ->
  load inputHeatDist m = uniform c ->
  well_sized (load outputHeatDist m) = true ->
  (forall i j, border i j = true -> cell (load outputHeatDist m) i j = c) ->
  ((c + c + c + c) / 4)%float = c
  /\ load outputHeatDist (UpdateTemps inputHeatDist outputHeatDist m) = uniform c
  /\ load inputHeatDist (UpdateTemps inputHeatDist outputHeatDist m) = uniform c.
Proof.
  intros Hne Hbelow Hin Hout Hborder.
  pose proof (average_of_four_copies c Hbelow) as Hmean.
  split; [exact Hmean|]. split.
  - apply (UpdateTemps_uniform inputHeatDist outputHeatDist m c Hne Hin Hout Hborder).
    exact Hmean.
  - destruct (UpdateTemps_cells inputHeatDist outputHeatDist m Hne Hout)
      as (_ & Hinput & _).
    rewrite Hinput. exact Hin.
Qed.

Lemma UpdateTemps_uniform_fixed_point_witness :
  load newHeatDist
    (UpdateTemps oldHeatDist newHeatDist
       (Memory (uniform 0x1.999999999999ap-4%float)
          (uniform 0x1.999999999999ap-4%float)))
  = uniform 0x1.999999999999ap-4%float.
Proof.
  apply (UpdateTemps_uniform_fixed_point oldHeatDist newHeatDist
           (Memory (uniform 0x1.999999999999ap-4%float)
              (uniform 0x1.999999999999ap-4%float))
           0x1.999999999999ap-4%float).
  - discriminate.
  - reflexivity.
  - reflexivity.
  - reflexivity.
  - intros i j [Hi Hj]%border_in_plate. apply cell_uniform; assumption.
Defined.

(** C6 as stated fails when the sum of four copies overflows: on the
    plate of the largest finite binary64 number every interior cell
    becomes infinite. *)
Lemma UpdateTemps_uniform_overflows :
  let c := 0x1.fffffffffffffp+1023%float in
  let m := Memory (uniform c) (uniform c) in
  cell (load newHeatDist (UpdateTemps oldHeatDist newHeatDist m)) 1 1 = infinity
  /\ load newHeatDist (UpdateTemps oldHeatDist newHeatDist m) <> uniform c.
Proof.
  split; [vm_compute; reflexivity|].
  intros Hfixed.
  apply (f_equal (fun p => PrimFloat.eqb (cell p 1 1) infinity)) in Hfixed.
  vm_compute in Hfixed. discriminate.
Qed.

(** * Further properties of the program *)

(** ** The grid copy *)

(** X1. [TransferValues] on two different arrays overwrites every cell of
    the destination, border included, with the cell of the source at the
    same place: afterwards the destination is the source plate, whatever
    it held before, and the source is unchanged. *)
Theorem TransferValues_overwrites_destination
    (sourceArray destArray : array) (m : memory) :
  sourceArray <> destArray ->
  well_sized (load sourceArray m) = true ->
  well_sized (load destArray m) = true ->
  load destArray (TransferValues sourceArray destArray m) = load sourceArray m
  /\ load sourceArray (TransferValues sourceArray destArray m) = load sourceArray m.
Proof. apply TransferValues_copies. Qed.

Lemma TransferValues_overwrites_destination_witness :
  load oldHeatDist
    (TransferValues newHeatDist oldHeatDist (Memory (uniform 1%float) initial_plate))
  = initial_plate.
Proof.
  apply (TransferValues_overwrites_destination newHeatDist oldHeatDist
           (Memory (uniform 1%float) initial_plate));
    [discriminate | reflexivity | reflexivity].
Defined.

(** ** One round of the driver *)

(** After one round both arrays hold the plate computed from the old one:
    its interior cells are the means of their neighbours in the old
    array, its other cells are those the new array had before. *)
Lemma relax_arrays (m : memory) :
  well_sized (load oldHeatDist m) = true ->
  well_sized (load newHeatDist m) = true ->
  load oldHeatDist (relax m) = load newHeatDist (relax m)
  /\ well_sized (load newHeatDist (relax m)) = true
  /\ forall i j,
       cell (load newHeatDist (relax m)) i j =
       if interior i j then neighbour_mean (load oldHeatDist m) i j
       else cell (load newHeatDist m) i j.
Proof.
  intros Hold Hnew. unfold relax.
  destruct (UpdateTemps_cells oldHeatDist newHeatDist m) as (Hsz & Hin & Hcells);
    [discriminate | exact Hnew |].
  destruct (TransferValues_copies newHeatDist oldHeatDist
              (UpdateTemps oldHeatDist newHeatDist m)) as (Hdst & Hsrc);
    [discriminate | exact Hsz | rewrite Hin; exact Hold |].
  rewrite Hdst, Hsrc. repeat split; [exact Hsz | exact Hcells].
Qed.

Lemma mem_iterate (d : driver) : mem (iterate d) = relax (mem d).
Proof. rewrite iterate_unfold. reflexivity. Qed.

Lemma border_not_interior (i j : nat) : border i j = true -> interior i j = false.
Proof.
  unfold border. intros [_ Hout]%andb_true_iff. apply negb_true_iff, Hout.
Qed.

(** ** What the steady-state loop keeps *)

(** The steady-state loop leaves the same plate in both arrays, with the
    border the new array had when the loop was entered. *)
Lemma do_while_border (fuel : nat) (d final : driver) :
  well_sized (load oldHeatDist (mem d)) = true ->
  well_sized (load newHeatDist (mem d)) = true ->
  do_while fuel d = Some final ->
  load oldHeatDist (mem final) = load newHeatDist (mem final)
  /\ well_sized (load newHeatDist (mem final)) = true
  /\ forall i j, border i j = true ->
       cell (load newHeatDist (mem final)) i j = cell (load newHeatDist (mem d)) i j.
Proof.
  revert d. induction fuel as [|fuel IH]; intros d Hold Hnew Hrun; [discriminate|].
  rewrite do_while_unfold in Hrun.
  destruct (relax_arrays (mem d) Hold Hnew) as (Hsame & Hsz & Hcells).
  rewrite <- mem_iterate in Hsame, Hsz, Hcells.
  assert (forall i j, border i j = true ->
            cell (load newHeatDist (mem (iterate d))) i j
            = cell (load newHeatDist (mem d)) i j) as Hborder.
  { intros i j Hb. rewrite Hcells, (border_not_interior i j Hb). reflexivity. }
  destruct (negb (hasReachedSteadyState (iterate d))
            && (iterationCount (iterate d) <? ITERATION_LIMIT)%Z).
  - destruct (IH (iterate d)) as (Hsame' & Hsz' & Hborder');
      [rewrite Hsame; exact Hsz | exact Hsz | exact Hrun |].
    repeat split; [exact Hsame' | exact Hsz' |].
    intros i j Hb. rewrite (Hborder' i j Hb). apply Hborder, Hb.
  - injection Hrun as <-. repeat split; assumption.
Qed.

(** X2. Whenever the steady-state loop returns, from arrays of the
    program's shape, however many rounds it made: the two arrays hold the
    same plate (the last round copied the new one back), and every border
    cell of it has the value that cell of the new array had when the loop
    was entered. The relaxation never changes the boundary condition. *)
Theorem do_while_keeps_border (fuel : nat) (d final : driver) :
  well_sized (load oldHeatDist (mem d)) = true ->
  well_sized (load newHeatDist (mem d)) = true ->
  do_while fuel d = Some final ->
  load oldHeatDist (mem final) = load newHeatDist (mem final)
  /\ well_sized (load newHeatDist (mem final)) = true
  /\ forall i j, border i j = true ->
       cell (load newHeatDist (mem final)) i j = cell (load newHeatDist (mem d)) i j.
Proof. apply do_while_border. Qed.

Lemma do_while_keeps_border_witness :
  let d := Driver (Memory (uniform 5%float) initial_plate) false 1 in
  exists final : driver,
    do_while 70 d = Some final
    /\ load oldHeatDist (mem final) = load newHeatDist (mem final)
    /\ cell (load newHeatDist (mem final)) 0 4 = 100%float.
Proof.
  intros d.
  assert (exists final, do_while 70 d = Some final) as [final Hrun]
    by (eexists; vm_compute; reflexivity).
  exists final. split; [exact Hrun|].
  destruct (do_while_keeps_border 70 d final) as (Hsame & _ & Hborder);
    [reflexivity | reflexivity | exact Hrun |].
  split; [exact Hsame|]. rewrite (Hborder 0 4) by reflexivity. reflexivity.
Defined.

Lemma mem_Driver (m : memory) (steady : bool) (count : Z) :
  mem (Driver m steady count) = m.
Proof. reflexivity. Qed.

Lemma relax_unfold (m : memory) :
  relax m
  = TransferValues newHeatDist oldHeatDist (UpdateTemps oldHeatDist newHeatDist m).
Proof. reflexivity. Qed.

(** Whatever the arrays held, [main] enters its loop with the plate of
    [InitPlate] relaxed once. *)
Lemma before_loop_initial (m : memory) :
  well_sized (load oldHeatDist m) = true ->
  well_sized (load newHeatDist m) = true ->
  before_loop m = relax (Memory initial_plate initial_plate).
Proof.
  intros Hold Hnew. unfold before_loop, relax.
  rewrite (InitPlate_both m Hold Hnew). reflexivity.
Qed.

(** The arrays [main] enters its loop with. *)
Lemma before_loop_arrays (m : memory) :
  well_sized (load oldHeatDist m) = true ->
  well_sized (load newHeatDist m) = true ->
  well_sized (load oldHeatDist (before_loop m)) = true
  /\ well_sized (load newHeatDist (before_loop m)) = true
  /\ forall i j, border i j = true ->
       cell (load newHeatDist (before_loop m)) i j = initial_temp i j.
Proof.
  intros Hold Hnew.
  rewrite (before_loop_initial m Hold Hnew).
  destruct (relax_arrays (Memory initial_plate initial_plate))
    as (Hsame & Hsz & Hcells); [reflexivity | reflexivity |].
  rewrite Hsame. repeat split; try exact Hsz.
  intros i j Hb. rewrite Hcells, (border_not_interior i j Hb).
  destruct (border_in_plate i j Hb) as [Hi Hj].
  apply cell_initial_plate; assumption.
Qed.

(** The boundary condition of [InitPlate], in numbers. *)
Lemma initial_temp_border (i j : nat) :
  border i j = true ->
  initial_temp i j =
  if ((i =? 0) || (i =? 9)) && negb ((j =? 0) || (j =? 9))
  then 100%float else 0%float.
Proof.
  intros Hb. destruct (border_in_plate i j Hb) as [Hi Hj].
  unfold initial_temp, INITIAL_TEMP. unfold PLATE_SIZE in *.
  range_cases.
Qed.

(** The arrays the loop of [main] leaves. *)
Lemma main_loop_border (m : memory) (final : driver) :
  well_sized (load oldHeatDist m) = true ->
  well_sized (load newHeatDist m) = true ->
  do_while (Z.to_nat ITERATION_LIMIT) (Driver (before_loop m) false 1) = Some final ->
  load oldHeatDist (mem final) = load newHeatDist (mem final)
  /\ well_sized (load newHeatDist (mem final)) = true
  /\ forall i j, border i j = true ->
       cell (load newHeatDist (mem final)) i j = initial_temp i j.
Proof.
  intros Hold Hnew Hrun.
  destruct (before_loop_arrays m Hold Hnew) as (Hold' & Hnew' & Hborder).
  destruct (do_while_border (Z.to_nat ITERATION_LIMIT)
              (Driver (before_loop m) false 1) final)
    as (Hsame & Hsz & Hkept);
    [rewrite mem_Driver; exact Hold' | rewrite mem_Driver; exact Hnew' | exact Hrun |].
  rewrite mem_Driver in Hkept.
  split; [exact Hsame|]. split; [exact Hsz|].
  intros i j Hb. rewrite (Hkept i j Hb). apply Hborder, Hb.
Qed.

(** X3. In [main], whatever the two local arrays held at the start,
    the plate the steady-state loop leaves in both arrays (the one printed
    as final and exported) still has the boundary condition of
    [InitPlate]: 100.0 on the top and bottom rows without the corners,
    0.0 on the corners and on the left and right columns. *)
Theorem main_loop_keeps_boundary (m : memory) (final : driver) :
  well_sized (load oldHeatDist m) = true ->
  well_sized (load newHeatDist m) = true ->
  do_while (Z.to_nat ITERATION_LIMIT) (Driver (before_loop m) false 1) = Some final ->
  load oldHeatDist (mem final) = load newHeatDist (mem final)
  /\ forall i j, border i j = true ->
       cell (load newHeatDist (mem final)) i j =
       if ((i =? 0) || (i =? 9)) && negb ((j =? 0) || (j =? 9))
       then 100%float else 0%float.
Proof.
  intros Hold Hnew Hrun.
  destruct (main_loop_border m final Hold Hnew Hrun) as (Hsame & _ & Hborder).
  split; [exact Hsame|].
  intros i j Hb. rewrite (Hborder i j Hb). apply initial_temp_border, Hb.
Qed.

Lemma main_loop_keeps_boundary_witness :
  let m := Memory (uniform 1%float) (uniform 2%float) in
  exists final : driver,
    do_while (Z.to_nat ITERATION_LIMIT) (Driver (before_loop m) false 1) = Some final
    /\ cell (load newHeatDist (mem final)) 0 3 = 100%float
    /\ cell (load newHeatDist (mem final)) 4 0 = 0%float.
Proof.
  intros m. destruct initial_run_converges as (final & Hrun & _).
  rewrite <- relax_unfold, <- (before_loop_initial m eq_refl eq_refl) in Hrun.
  exists final. split; [exact Hrun|].
  destruct (main_loop_keeps_boundary m final eq_refl eq_refl Hrun) as (_ & Hborder).
  split; [apply (Hborder 0 3 eq_refl) | apply (Hborder 4 0 eq_refl)].
Defined.

(** X4. The loop of [main] makes at least one round and at most
    [ITERATION_LIMIT - 1]: when it returns, the counter, which started at
    1, is between 2 and [ITERATION_LIMIT], so the [int] cannot overflow. *)
Theorem main_loop_counter_bounds (m : memory) (final : driver) :
  do_while (Z.to_nat ITERATION_LIMIT) (Driver m false 1) = Some final ->
  (2 <= iterationCount final <= ITERATION_LIMIT)%Z
  /\ (iterationCount final < ITERATION_LIMIT -> hasReachedSteadyState final = true)%Z.
Proof.
  intros Hrun.
  destruct (main_loop_terminates m) as (last & Hrun' & Hexit & Hcount).
  rewrite Hrun in Hrun'. injection Hrun' as ->.
  rewrite iterationCount_iterate in *. split; [lia|].
  intros Hbelow. destruct Hexit as [Hsteady | Hcap]; [exact Hsteady | lia].
Qed.

Lemma main_loop_counter_bounds_witness :
  exists final : driver,
    do_while (Z.to_nat ITERATION_LIMIT)
      (Driver (relax (Memory initial_plate initial_plate)) false 1) = Some final
    /\ (2 <= iterationCount final <= ITERATION_LIMIT)%Z.
Proof.
  destruct initial_run_converges as (final & Hrun & _).
  rewrite <- relax_unfold in Hrun.
  exists final. split; [exact Hrun|].
  apply (main_loop_counter_bounds _ final Hrun).
Defined.

(** ** What the functions never read *)

Lemma StateChanged_same_interior
    (oldHeatArray newHeatDist : array) (epsilonVal : float) (m : memory) :
  (0 <=? epsilonVal)%float = true ->
  (forall i j, interior i j = true ->
     cell (load newHeatDist m) i j = cell (load oldHeatArray m) i j) ->
  StateChanged oldHeatArray newHeatDist epsilonVal m = false.
Proof.
  intros Heps Hsame. apply not_true_is_false.
  intros (i & j & Hint & Hexc)%StateChanged_true_iff.
  rewrite (Hsame i j Hint), exceeds_diag in Hexc by exact Heps. discriminate.
Qed.

(** X5. [StateChanged] looks at interior cells only: for a threshold
    that is not negative it returns false on two arrays whose interior
    cells are equal, however much their borders differ. *)
Theorem StateChanged_ignores_border
    (oldHeatArray newHeatDist : array) (epsilonVal : float) (m : memory) :
  (0 <=? epsilonVal)%float = true ->
  (forall i j, interior i j = true ->
     cell (load newHeatDist m) i j = cell (load oldHeatArray m) i j) ->
  StateChanged oldHeatArray newHeatDist epsilonVal m = false.
Proof. apply StateChanged_same_interior. Qed.

Lemma StateChanged_ignores_border_witness :
  StateChanged oldHeatDist newHeatDist HEAT_EPSILON
    (Memory (uniform 0%float) (store_cell (uniform 0%float) 0 3 100%float))
  = false.
Proof.
  apply StateChanged_ignores_border; [reflexivity|].
  intros i j Hint. apply cell_store_cell_ne.
  destruct (decide (0 = i)) as [<-|Hi]; [discriminate | left; exact Hi].
Defined.

(** The interior cells have no neighbour in a corner. *)
Lemma neighbour_mean_ignores_corners (p q : plate) (i j : nat) :
  interior i j = true ->
  (forall i' j', corner i' j' = false -> cell p i' j' = cell q i' j') ->
  neighbour_mean p i j = neighbour_mean q i j.
Proof.
  unfold interior, in_range, PLATE_SIZE.
  intros [[Hi1 Hi2]%andb_true_iff [Hj1 Hj2]%andb_true_iff]%andb_true_iff Hsame.
  apply Nat.leb_le in Hi1, Hj1. apply Nat.ltb_lt in Hi2, Hj2.
  unfold neighbour_mean.
  rewrite (Hsame (i - 1) j), (Hsame i (j - 1)), (Hsame i (j + 1)), (Hsame (i + 1) j);
    try reflexivity; unfold corner, PLATE_SIZE; range_cases.
Qed.

(** X6. [UpdateTemps] never reads the four corner cells of its input:
    two input arrays that differ in the corners only give the same output
    array. The corner temperatures have no influence on the plate. *)
Theorem UpdateTemps_ignores_corners
    (inputHeatDist outputHeatDist : array) (m m' : memory) :
  inputHeatDist <> outputHeatDist ->
  well_sized (load outputHeatDist m) = true ->
  load outputHeatDist m' = load outputHeatDist m ->
  (forall i j, corner i j = false ->
     cell (load inputHeatDist m') i j = cell (load inputHeatDist m) i j) ->
  load outputHeatDist (UpdateTemps inputHeatDist outputHeatDist m')
  = load outputHeatDist (UpdateTemps inputHeatDist outputHeatDist m).
Proof.
  intros Hne Hsz Hout Hin.
  destruct (UpdateTemps_cells inputHeatDist outputHeatDist m Hne Hsz)
    as (Hsz1 & _ & Hcells1).
  destruct (UpdateTemps_cells inputHeatDist outputHeatDist m' Hne)
    as (Hsz2 & _ & Hcells2); [rewrite Hout; exact Hsz|].
  rewrite Hout in Hcells2. revert Hsz1 Hcells1 Hsz2 Hcells2.
  generalize (UpdateTemps inputHeatDist outputHeatDist m)
             (UpdateTemps inputHeatDist outputHeatDist m').
  intros u u' Hsz1 Hcells1 Hsz2 Hcells2.
  apply plate_ext; [exact Hsz2 | exact Hsz1 |].
  intros i j _ _. rewrite (Hcells1 i j), (Hcells2 i j).
  destruct (interior i j) eqn:Hint; [|reflexivity].
  apply neighbour_mean_ignores_corners; assumption.
Qed.

Lemma UpdateTemps_ignores_corners_witness :
  load newHeatDist
    (UpdateTemps oldHeatDist newHeatDist
       (Memory (store_cell initial_plate 0 0 50%float) initial_plate))
  = load newHeatDist
      (UpdateTemps oldHeatDist newHeatDist (Memory initial_plate initial_plate)).
Proof.
  apply UpdateTemps_ignores_corners; [discriminate | reflexivity | reflexivity |].
  intros i j Hij. apply cell_store_cell_ne.
  destruct (decide (0 = i)) as [<-|Hi]; [|left; exact Hi].
  right. intros <-. discriminate.
Defined.

(** ** The order of the arguments of the convergence check *)

Section AbsoluteDifference.
Local Open Scope Z_scope.

(** The sign given to the rounding does not change the magnitude. *)
Lemma SFabs_binary_round_aux (s s' : bool) (m e : Z) (l : location) :
  SFabs (binary_round_aux prec emax s m e l)
  = SFabs (binary_round_aux prec emax s' m e l).
Proof.
  unfold binary_round_aux.
  destruct (shr_fexp prec emax m e l) as [mrs' e'].
  destruct (shr_fexp prec emax _ e' loc_Exact) as [mrs'' e''].
  destruct (shr_m mrs''); try reflexivity.
  destruct (e'' <=? emax - prec); reflexivity.
Qed.

Lemma SFabs_binary_normalize_opp (z e : Z) :
  SFabs (binary_normalize prec emax (- z) e false)
  = SFabs (binary_normalize prec emax z e false).
Proof.
  destruct z as [|p|p]; [reflexivity | |].
  - change (- Z.pos p) with (Z.neg p). unfold binary_normalize, binary_round.
    destruct (shl_align _ _ _) as [mz ez]. apply SFabs_binary_round_aux.
  - change (- Z.neg p) with (Z.pos p). unfold binary_normalize, binary_round.
    destruct (shl_align _ _ _) as [mz ez]. apply SFabs_binary_round_aux.
Qed.

Lemma SFabs_SFsub_swap (x y : spec_float) :
  SFabs (SFsub prec emax x y) = SFabs (SFsub prec emax y x).
Proof.
  destruct x as [sx|sx| |sx mx ex], y as [sy|sy| |sy my ey];
    try reflexivity; try (destruct sx, sy; reflexivity).
  cbn [SFsub]. rewrite (Z.min_comm ey ex).
  rewrite <- SFabs_binary_normalize_opp. f_equal. f_equal. lia.
Qed.

(** [fabs(x - y)] and [fabs(y - x)] are the same binary64 number. *)
Lemma abs_sub_swap (x y : float) : abs (x - y) = abs (y - x).
Proof.
  apply Prim2SF_inj. rewrite !abs_spec, !sub_spec. apply SFabs_SFsub_swap.
Qed.
End AbsoluteDifference.

Lemma exceeds_swap (epsilonVal x y : float) :
  exceeds epsilonVal x y = exceeds epsilonVal y x.
Proof. unfold exceeds. rewrite (abs_sub_swap x y). reflexivity. Qed.

(** X7. The convergence check does not depend on which array is passed
    as the old one and which as the new one: in binary64 the magnitude of
    a difference is the same in both directions, NaN and infinities
    included. *)
Theorem StateChanged_symmetric (a b : array) (epsilonVal : float) (m : memory) :
  StateChanged a b epsilonVal m = StateChanged b a epsilonVal m.
Proof.
  assert (forall a b, StateChanged a b epsilonVal m = true ->
                      StateChanged b a epsilonVal m = true) as Hswap.
  { intros a' b' (i & j & Hint & Hexc)%StateChanged_true_iff.
    apply StateChanged_true_iff. exists i, j. split; [exact Hint|].
    rewrite exceeds_swap. exact Hexc. }
  destruct (StateChanged a b epsilonVal m) eqn:Hab.
  - symmetry. apply Hswap, Hab.
  - symmetry. apply not_true_is_false. intros Hba.
    apply Hswap in Hba. congruence.
Qed.

(** ** The import *)

Lemma stored_values_numbers (numbers : list float) (ending : list token) :
  stored_values ((number <$> numbers) ++ ending) = numbers ++ stored_values ending.
Proof.
  induction numbers as [|v numbers IH]; [reflexivity|].
  cbn [fmap list_fmap app stored_values converts stored]. rewrite <- IH. reflexivity.
Qed.

Lemma stored_values_ending (ending : list token) :
  (forall t, head ending = Some t -> converts t = false) ->
  stored_values ending = from_option (fun t => [stored t]) [] (head ending).
Proof.
  destruct ending as [|t rest]; [reflexivity|].
  intros Hfails. cbn [stored_values head from_option].
  rewrite (Hfails t eq_refl). reflexivity.
Qed.

Lemma imported_extract (a : array) (fields : list token) (m : memory)
    (i j : nat) (st : list token * memory) :
  i < PLATE_SIZE -> j < PLATE_SIZE ->
  imported a fields m (i * PLATE_SIZE + j) st ->
  imported a fields m (i * PLATE_SIZE + S j) (extract a i j st).
Proof.
  intros Hi Hj (Hrest & Hsz & Hframe & Hcells).
  destruct st as [rest t]. cbn [fst snd] in *. unfold extract. cbn [fst snd].
  replace (i * PLATE_SIZE + S j) with (S (i * PLATE_SIZE + j)) by lia.
  set (k := i * PLATE_SIZE + j) in *.
  set (numbers := stored_values fields) in *.
  assert (forall i1 j1, i1 < PLATE_SIZE -> j1 < PLATE_SIZE ->
            i1 * PLATE_SIZE + j1 = k -> i1 = i /\ j1 = j) as Hinj.
  { unfold k, PLATE_SIZE in *. intros i1 j1 Hi1 Hj1 Hk. lia. }
  destruct rest as [|field rest].
  - assert (length numbers <= k) as Hk.
    { apply (f_equal length) in Hrest. rewrite length_drop in Hrest.
      cbn [stored_values length] in Hrest. lia. }
    unfold imported. cbn [fst snd]. fold numbers.
    split; [|split; [|split]].
    + rewrite drop_ge by lia. reflexivity.
    + exact Hsz.
    + exact Hframe.
    + intros i1 j1 Hi1 Hj1. rewrite Hcells by assumption.
      destruct (Nat.ltb_spec (i1 * PLATE_SIZE + j1) k),
               (Nat.ltb_spec (i1 * PLATE_SIZE + j1) (S k)); try reflexivity; try lia.
      rewrite (proj2 (lookup_ge_None numbers (i1 * PLATE_SIZE + j1))) by lia.
      reflexivity.
  - cbn [stored_values] in Hrest.
    assert (numbers !! k = Some (stored field)) as Hk.
    { rewrite <- (Nat.add_0_r k), <- lookup_drop, <- Hrest. reflexivity. }
    assert (stored_values (if converts field then rest else [])
            = drop (S k) numbers) as Hrest'.
    { rewrite (drop_S numbers (stored field) k Hk) in Hrest.
      injection Hrest as <-. destruct (converts field); reflexivity. }
    unfold imported. cbn [fst snd]. fold numbers.
    split; [exact Hrest'|]. split; [|split].
    + rewrite load_assign. apply well_sized_store_cell, Hsz.
    + intros b Hb. rewrite load_assign_ne by congruence. apply Hframe, Hb.
    + intros i1 j1 Hi1 Hj1. rewrite load_assign.
      destruct (decide (i1 * PLATE_SIZE + j1 = k)) as [Heq | Hne].
      * destruct (Hinj i1 j1 Hi1 Hj1 Heq) as [-> ->].
        rewrite cell_store_cell_eq by assumption.
        fold k. rewrite Hk. destruct (Nat.ltb_spec k (S k)); [reflexivity | lia].
      * assert (i <> i1 \/ j <> j1) as Hother.
        { destruct (decide (i = i1)) as [<-|];
            [right; intros <-; apply Hne; reflexivity | left; assumption]. }
        rewrite (cell_store_cell_ne _ _ _ _ _ _ Hother), Hcells by assumption.
        destruct (Nat.ltb_spec (i1 * PLATE_SIZE + j1) k),
                 (Nat.ltb_spec (i1 * PLATE_SIZE + j1) (S k)); try reflexivity; lia.
Qed.

Lemma imported_all (a : array) (fields : list token) (m : memory) :
  well_sized (load a m) = true ->
  imported a fields m (PLATE_SIZE * PLATE_SIZE)
    (for_loop 0 PLATE_SIZE (fun i =>
       for_loop 0 PLATE_SIZE (fun j st => extract a i j st)) (fields, m)).
Proof.
  intros Hsz.
  apply (for_loop_invariant (fun i => imported a fields m (i * PLATE_SIZE))).
  - lia.
  - unfold imported. cbn [fst snd].
    split; [reflexivity|]. split; [exact Hsz|]. split; [reflexivity|].
    intros i j _ _. reflexivity.
  - intros i st Hi Hrow.
    replace (S i * PLATE_SIZE) with (i * PLATE_SIZE + PLATE_SIZE) by lia.
    apply (for_loop_invariant (fun j => imported a fields m (i * PLATE_SIZE + j))).
    + lia.
    + rewrite Nat.add_0_r. exact Hrow.
    + intros j u Hj. apply imported_extract; lia.
Qed.

(** Whatever the file holds, the cells receive the stored values in
    row-major order, and the function reports nothing. *)
Lemma InitPlateFromTxt_reads (passedHeatDist : array) (fields : list token)
    (m : memory) (w : world) :
  Inputplate_txt w = Some fields ->
  well_sized (load passedHeatDist m) = true ->
  exists m' : memory,
    InitPlateFromTxt passedHeatDist m w = (0%Z, m', w)
    /\ well_sized (load passedHeatDist m') = true
    /\ (forall b, b <> passedHeatDist -> load b m' = load b m)
    /\ forall i j, i < PLATE_SIZE -> j < PLATE_SIZE ->
         cell (load passedHeatDist m') i j =
         default (cell (load passedHeatDist m) i j)
           (stored_values fields !! (i * PLATE_SIZE + j)).
Proof.
  intros Hfile Hsz. unfold InitPlateFromTxt. rewrite Hfile. cbv zeta.
  destruct (imported_all passedHeatDist fields m Hsz) as (_ & Hsz' & Hframe & Hcells).
  eexists. split; [reflexivity|]. split; [exact Hsz'|]. split; [exact Hframe|].
  intros i j Hi Hj. rewrite (Hcells i j Hi Hj).
  destruct (Nat.ltb_spec (i * PLATE_SIZE + j) (PLATE_SIZE * PLATE_SIZE)) as [|Hout];
    [reflexivity|].
  unfold PLATE_SIZE in *. lia.
Qed.

(** X8. When [Inputplate.txt] can be opened and starts with at least 100
    numbers, [InitPlateFromTxt] returns 0, prints nothing, and fills the
    whole array in row-major order: the cell in row [i] and column [j]
    receives the number at position [10 i + j] of the file. What follows
    the first 100 numbers has no effect, and the other array is not
    touched. *)
Theorem InitPlateFromTxt_row_major (passedHeatDist : array) (numbers : list float)
    (rest : list token) (m : memory) (w : world) :
  Inputplate_txt w = Some ((number <$> numbers) ++ rest) ->
  well_sized (load passedHeatDist m) = true ->
  PLATE_SIZE * PLATE_SIZE <= length numbers ->
  exists m' : memory,
    InitPlateFromTxt passedHeatDist m w = (0%Z, m', w)
    /\ (forall b, b <> passedHeatDist -> load b m' = load b m)
    /\ forall i j, i < PLATE_SIZE -> j < PLATE_SIZE ->
         numbers !! (i * PLATE_SIZE + j) = Some (cell (load passedHeatDist m') i j).
Proof.
  intros Hfile Hsz Hfull.
  destruct (InitPlateFromTxt_reads passedHeatDist _ m w Hfile Hsz)
    as (m' & Hrun & _ & Hframe & Hcells).
  exists m'. split; [exact Hrun|]. split; [exact Hframe|].
  intros i j Hi Hj. rewrite (Hcells i j Hi Hj), stored_values_numbers.
  assert (i * PLATE_SIZE + j < length numbers) as Hin
    by (unfold PLATE_SIZE in *; lia).
  rewrite lookup_app_l by exact Hin.
  destruct (lookup_lt_is_Some_2 numbers (i * PLATE_SIZE + j) Hin) as [v ->].
  reflexivity.
Qed.

Lemma InitPlateFromTxt_row_major_witness :
  let numbers := 1%float :: 2%float :: replicate 100 3%float in
  let w := World EmptyString true None (Some ((number <$> numbers) ++ [malformed])) in
  exists m' : memory,
    InitPlateFromTxt oldHeatDist (Memory initial_plate initial_plate) w = (0%Z, m', w)
    /\ Some 2%float = Some (cell (load oldHeatDist m') 0 1)
    /\ load newHeatDist m' = initial_plate.
Proof.
  intros numbers w.
  destruct (InitPlateFromTxt_row_major oldHeatDist numbers [malformed]
              (Memory initial_plate initial_plate) w)
    as (m' & Hrun & Hframe & Hcells).
  - reflexivity.
  - reflexivity.
  - apply Nat.leb_le. reflexivity.
  - exists m'. split; [exact Hrun|]. split.
    + apply (Hcells 0 1); apply Nat.ltb_lt; reflexivity.
    + apply (Hframe newHeatDist). discriminate.
Defined.

(** X9. When the numbers of the file stop before the hundredth, at the
    end of the file or at a field that does not convert,
    [InitPlateFromTxt] still returns 0 and reports nothing. The cells
    for which a number was read hold it. The next cell keeps its value
    when the file has ended there; for a field that does not convert it
    receives what the failed extraction stores, 0.0 for a field that is
    no number and the largest finite [double], with the sign of the
    field, for a number out of range. Every later cell in row-major order
    keeps the value it had before the call. *)
Theorem InitPlateFromTxt_keeps_unread_cells (passedHeatDist : array)
    (numbers : list float) (ending : list token) (m : memory) (w : world) :
  Inputplate_txt w = Some ((number <$> numbers) ++ ending) ->
  (forall t, head ending = Some t -> converts t = false) ->
  well_sized (load passedHeatDist m) = true ->
  exists m' : memory,
    InitPlateFromTxt passedHeatDist m w = (0%Z, m', w)
    /\ (forall i j, i < PLATE_SIZE -> j < PLATE_SIZE ->
          i * PLATE_SIZE + j < length numbers ->
          numbers !! (i * PLATE_SIZE + j) = Some (cell (load passedHeatDist m') i j))
    /\ (forall i j, i < PLATE_SIZE -> j < PLATE_SIZE ->
          i * PLATE_SIZE + j = length numbers ->
          cell (load passedHeatDist m') i j =
          match head ending with
          | None => cell (load passedHeatDist m) i j
          | Some malformed => 0%float
          | Some (out_of_range negative) =>
              if negative then (- 0x1.fffffffffffffp+1023)%float
              else 0x1.fffffffffffffp+1023%float
          | Some (number v) => v
          end)
    /\ (forall i j, i < PLATE_SIZE -> j < PLATE_SIZE ->
          length numbers < i * PLATE_SIZE + j ->
          cell (load passedHeatDist m') i j = cell (load passedHeatDist m) i j).
Proof.
  intros Hfile Hfails Hsz.
  destruct (InitPlateFromTxt_reads passedHeatDist _ m w Hfile Hsz)
    as (m' & Hrun & _ & _ & Hcells).
  exists m'. split; [exact Hrun|].
  assert (forall i j, i < PLATE_SIZE -> j < PLATE_SIZE ->
            cell (load passedHeatDist m') i j =
            default (cell (load passedHeatDist m) i j)
              ((numbers ++ from_option (fun t => [stored t]) [] (head ending))
                 !! (i * PLATE_SIZE + j))) as Hcells'.
  { intros i j Hi Hj.
    rewrite (Hcells i j Hi Hj), stored_values_numbers, (stored_values_ending _ Hfails).
    reflexivity. }
  clear Hcells. split; [|split].
  - intros i j Hi Hj Hin. rewrite (Hcells' i j Hi Hj), lookup_app_l by exact Hin.
    destruct (lookup_lt_is_Some_2 numbers (i * PLATE_SIZE + j) Hin) as [v ->].
    reflexivity.
  - intros i j Hi Hj Hnext.
    rewrite (Hcells' i j Hi Hj), lookup_app_r, Hnext, Nat.sub_diag by lia.
    destruct (head ending) as [[v| |[|]]|]; reflexivity.
  - intros i j Hi Hj Hout.
    rewrite (Hcells' i j Hi Hj), lookup_app_r by lia.
    destruct (i * PLATE_SIZE + j - length numbers) as [|k] eqn:Hk; [lia|].
    destruct (head ending); reflexivity.
Qed.

Lemma InitPlateFromTxt_keeps_unread_cells_witness :
  let numbers := [7%float; 8%float] in
  let w := World EmptyString true None
             (Some ((number <$> numbers) ++ [malformed; number 9%float])) in
  exists m' : memory,
    InitPlateFromTxt oldHeatDist (Memory initial_plate initial_plate) w = (0%Z, m', w)
    /\ Some 8%float = Some (cell (load oldHeatDist m') 0 1)
    /\ cell (load oldHeatDist m') 0 2 = 0%float
    /\ cell (load oldHeatDist m') 0 3 = 100%float.
Proof.
  intros numbers w.
  destruct (InitPlateFromTxt_keeps_unread_cells oldHeatDist numbers
              [malformed; number 9%float]
              (Memory initial_plate initial_plate) w)
    as (m' & Hrun & Hread & Hnext & Hkept).
  - reflexivity.
  - intros t [= <-]. reflexivity.
  - reflexivity.
  - exists m'. split; [exact Hrun|]. split; [|split].
    + apply (Hread 0 1); apply Nat.ltb_lt; reflexivity.
    + apply (Hnext 0 2); [apply Nat.ltb_lt; reflexivity .. | reflexivity].
    + rewrite (Hkept 0 3); [reflexivity | | |]; apply Nat.ltb_lt; reflexivity.
Defined.

(** ** The three updates after the import *)

Lemma three_updates_relaxed (m : memory) :
  well_sized (load oldHeatDist m) = true ->
  well_sized (load newHeatDist m) = true ->
  relaxed_from m DESIRED_ITERATIONS (three_updates m).
Proof.
  intros Hold Hnew. apply (for_loop_invariant (relaxed_from m)).
  - unfold DESIRED_ITERATIONS. lia.
  - split; [exact Hold|]. split; [exact Hnew|]. split; [reflexivity | lia].
  - intros k t _ (Hold_t & Hnew_t & Hborder_t & _).
    rewrite <- relax_unfold.
    destruct (relax_arrays t Hold_t Hnew_t) as (Hsame & Hsz & Hcells).
    split; [rewrite Hsame; exact Hsz|]. split; [exact Hsz|]. split.
    + intros i j Hb.
      rewrite (Hcells i j), (border_not_interior i j Hb). apply Hborder_t, Hb.
    + intros _. exact Hsame.
Qed.

(** X10. The three relaxation steps that [main] applies to the imported
    plate leave the same plate in both arrays, and its border is the
    border the array [newHeatDist] had before them: [UpdateTemps] writes
    no border cell of [newHeatDist] and the copy back overwrites the whole
    of [oldHeatDist], so the border values that were in [oldHeatDist],
    those read from the file, are gone after the first step. *)
Theorem three_updates_border_of_new (m : memory) :
  well_sized (load oldHeatDist m) = true ->
  well_sized (load newHeatDist m) = true ->
  load oldHeatDist (three_updates m) = load newHeatDist (three_updates m)
  /\ forall i j, border i j = true ->
       cell (load oldHeatDist (three_updates m)) i j = cell (load newHeatDist m) i j.
Proof.
  intros Hold Hnew.
  destruct (three_updates_relaxed m Hold Hnew) as (_ & _ & Hborder & Hsame).
  split.
  - apply Hsame. unfold DESIRED_ITERATIONS. lia.
  - intros i j Hb. rewrite Hsame by (unfold DESIRED_ITERATIONS; lia).
    apply Hborder, Hb.
Qed.

Lemma three_updates_border_of_new_witness :
  cell (load oldHeatDist (three_updates (Memory (uniform 5%float) initial_plate))) 0 3
  = 100%float.
Proof.
  destruct (three_updates_border_of_new (Memory (uniform 5%float) initial_plate))
    as (_ & Hborder); [reflexivity | reflexivity |].
  rewrite (Hborder 0 3) by reflexivity. reflexivity.
Defined.

(** ** A plate at rest *)

(** On two arrays that hold the same constant below 2^1022 in magnitude,
    a round of the driver changes nothing and finds no change. *)
Lemma iterate_uniform (m : memory) (c : float) (steady : bool) (count : Z) :
  (abs c <? 0x1p+1022)%float = true ->
  load oldHeatDist m = uniform c ->
  load newHeatDist m = uniform c ->
  iterate (Driver m steady count) = Driver m true (count + 1)%Z.
Proof.
  intros Hbelow Hold Hnew. rewrite iterate_unfold, mem_Driver.
  destruct (UpdateTemps_cells oldHeatDist newHeatDist m) as (Hsz & Hin & _);
    [discriminate | rewrite Hnew; apply well_sized_uniform |].
  assert (load newHeatDist (UpdateTemps oldHeatDist newHeatDist m) = uniform c)
    as Hout.
  { apply (UpdateTemps_uniform oldHeatDist newHeatDist m c);
      [discriminate | exact Hold | rewrite Hnew; apply well_sized_uniform | |].
    - intros i j [Hi Hj]%border_in_plate. rewrite Hnew. apply cell_uniform; assumption.
    - apply average_of_four_copies, Hbelow. }
  rewrite Hold in Hin.
  destruct (TransferValues_copies newHeatDist oldHeatDist
              (UpdateTemps oldHeatDist newHeatDist m)) as (Hdst & Hsrc);
    [discriminate | exact Hsz | rewrite Hin; apply well_sized_uniform |].
  assert (StateChanged oldHeatDist newHeatDist HEAT_EPSILON
            (UpdateTemps oldHeatDist newHeatDist m) = false) as ->.
  { apply StateChanged_same_interior; [reflexivity|].
    intros i j _. rewrite Hin, Hout. reflexivity. }
  assert (TransferValues newHeatDist oldHeatDist
            (UpdateTemps oldHeatDist newHeatDist m) = m) as ->.
  { apply memory_ext. intros [|].
    - rewrite Hdst, Hout, Hold. reflexivity.
    - rewrite Hsrc, Hout, Hnew. reflexivity. }
  reflexivity.
Qed.

(** X11. A plate at rest stops the driver at once: when both arrays hold
    the same constant [c], below 2^1022 in magnitude, the steady-state
    loop makes one round, which leaves the arrays as they are, reports
    the steady state and adds one to the counter. *)
Theorem do_while_uniform_one_round (fuel : nat) (m : memory) (c : float)
    (steady : bool) (count : Z) :
  (abs c <? 0x1p+1022)%float = true ->
  load oldHeatDist m = uniform c ->
  load newHeatDist m = uniform c ->
  do_while (S fuel) (Driver m steady count) = Some (Driver m true (count + 1)%Z).
Proof.
  intros Hbelow Hold Hnew.
  rewrite do_while_unfold, (iterate_uniform m c steady count Hbelow Hold Hnew).
  rewrite hasReachedSteadyState_Driver. reflexivity.
Qed.

Lemma do_while_uniform_one_round_witness :
  do_while 1 (Driver (Memory (uniform 20%float) (uniform 20%float)) false 1)
  = Some (Driver (Memory (uniform 20%float) (uniform 20%float)) true 2).
Proof.
  apply (do_while_uniform_one_round 0 (Memory (uniform 20%float) (uniform 20%float))
           20%float false 1); reflexivity.
Defined.

(** ** The width of the columns *)

Lemma all_from_spec (f : N -> bool) (count : nat) (k : N) :
  all_from f count k = true ->
  forall i, (k <= i < k + N.of_nat count)%N -> f i = true.
Proof.
  revert k. induction count as [|count IH]; intros k Hall i Hi; [lia|].
  cbn [all_from] in Hall. apply andb_true_iff in Hall as [Hk Hrest].
  destruct (N.eq_dec i k) as [->|Hne]; [exact Hk|].
  apply (IH (N.succ k) Hrest). lia.
Qed.

(** The decimal text of a number below 100000 has at most five digits
    (checked on each of them). *)
Lemma length_decimal_5 (k : N) :
  (k < 100000)%N ->
  (String.length (NilZero.string_of_uint (N.to_uint k)) <= 5)%nat.
Proof.
  intros Hk.
  assert (all_from
            (fun i => (String.length (NilZero.string_of_uint (N.to_uint i)) <=? 5)%nat)
            (N.to_nat 100000) 0 = true) as Hall by (vm_compute; reflexivity).
  apply Nat.leb_le. apply (all_from_spec _ _ _ Hall). lia.
Qed.

Section FieldWidth.
Local Open Scope Z_scope.

(** A valid mantissa has at most 53 bits, and exactly 53 above the least
    exponent. *)
Lemma valid_mantissa (s : bool) (m : positive) (e : Z) :
  valid_binary (S754_finite s m e) = true ->
  Z.pos m < 2 ^ 53 /\ -1074 <= e /\ (2 ^ 52 <= Z.pos m \/ e = -1074).
Proof.
  intros Hvalid. simpl in Hvalid.
  apply andb_true_iff in Hvalid as [Hcanon _]. apply Z.eqb_eq in Hcanon.
  rewrite fexp_unfold in Hcanon.
  pose proof (digits2_pos_bounds m) as [Hlo Hhi].
  assert (Z.pos (digits2_pos m) <= 53) as Hbits by lia.
  split; [|split; [lia|]].
  - eapply Z.lt_le_trans; [exact Hhi|]. apply Z.pow_le_mono_r; lia.
  - destruct (Z.eq_dec e (-1074)) as [He | He]; [right; exact He | left].
    assert (Z.pos (digits2_pos m) = 53) as Hfull by lia.
    rewrite Hfull in Hlo. exact Hlo.
Qed.

(** Thousandths of a number below 2^16. *)
Lemma scaled_round_below (m : positive) (e : Z) :
  Z.pos m < 2 ^ 53 -> e <= -37 ->
  0 <= scaled_round 3 m e < 65536001.
Proof.
  intros Hm He. unfold scaled_round. cbv zeta.
  destruct (Z.leb_spec 0 e) as [|_]; [lia|].
  change (10 ^ Z.of_nat 3) with 1000.
  set (den := 2 ^ (- e)).
  assert (2 ^ 37 <= den) as Hden by (apply Z.pow_le_mono_r; lia).
  assert (0 <= Z.pos m * 1000 / den < 65536000) as Hq.
  { split; [apply Z.div_pos; lia|].
    apply Z.div_lt_upper_bound; [lia|].
    apply Z.lt_le_trans with (2 ^ 37 * 65536000); [lia|].
    apply Z.mul_le_mono_nonneg_r; lia. }
  repeat match goal with |- context [if ?c then _ else _] => destruct c end; lia.
Qed.

(** A value from 0 up to 65536 fills a column of nine characters. *)
Lemma field_width_9 (x : float) :
  (0 <=? x)%float = true -> (x <? 65536)%float = true ->
  String.length (field x) = 9%nat.
Proof.
  rewrite leb_spec, ltb_spec. intros Hnonneg Hbelow.
  destruct (field_shape x) as (blanks & _ & _ & ->).
  assert (String.length (fixed_text OUTPUT_PRECISION x) <= 9)%nat;
    [|unfold OUTPUT_WIDTH; lia].
  pose proof (Prim2SF_valid x) as Hvalid. unfold fixed_text.
  change (Prim2SF 0) with (S754_zero false) in Hnonneg.
  change (Prim2SF 65536) with (S754_finite false 4503599627370496 (-36)) in Hbelow.
  destruct (Prim2SF x) as [s|s| |s m e]; try discriminate.
  - destruct s; cbv; lia.
  - destruct s; discriminate.
  - destruct s; [discriminate|].
    apply valid_mantissa in Hvalid as (Hm & Hmin & Hnormal).
    assert (e <= -37) as He.
    { unfold SFltb in Hbelow. cbn [SFcompare] in Hbelow.
      destruct (Z.compare_spec e (-36)) as [-> | Hlt | Hgt]; [| lia | discriminate].
      rewrite Pos.compare_cont_spec in Hbelow.
      destruct (Pos.compare_spec m 4503599627370496) as [| Hlt |];
        cbn [Pos.switch_Eq] in Hbelow; try discriminate.
      apply Pos2Z.pos_lt_pos in Hlt. destruct Hnormal; lia. }
    pose proof (scaled_round_below m e Hm He) as Hn.
    cbv zeta. unfold OUTPUT_PRECISION. cbn [sign_text].
    rewrite append_empty_l, !length_append, length_last_digits.
    change (10 ^ Z.of_nat 3) with 1000.
    pose proof (length_decimal_5 (Z.to_N (scaled_round 3 m e / 1000))) as Hint.
    cbn [String.length].
    assert (0 <= scaled_round 3 m e / 1000 < 100000); [|lia].
    split; [apply Z.div_pos; lia | apply Z.div_lt_upper_bound; lia].
Qed.

End FieldWidth.

Lemma length_rendered_row (p : plate) (i : nat) :
  (forall j, j < PLATE_SIZE -> String.length (field (cell p i j)) = 9) ->
  String.length (rendered_row p i) = 100.
Proof.
  intros Hfield. unfold rendered_row.
  cbv [seq map String.concat PLATE_SIZE].
  rewrite !length_append, !Hfield by (unfold PLATE_SIZE; lia). reflexivity.
Qed.

Lemma length_rendered_plate (p : plate) :
  (forall i, i < PLATE_SIZE -> String.length (rendered_row p i) = 100) ->
  String.length (rendered_plate p) = 1000.
Proof.
  intros Hrow. unfold rendered_plate.
  cbv [seq map String.concat PLATE_SIZE].
  rewrite !length_append, !Hrow by (unfold PLATE_SIZE; lia). reflexivity.
Qed.

(** X12. Temperatures from 0 up to 65536 are written in columns: every
    field is exactly nine characters wide, so every row takes 100
    characters with its commas and line end, and [OutputPlate] adds
    exactly 1000 characters to the stream. *)
Theorem OutputPlate_columns (p : plate) (outputStream : ostream) :
  (forall i j, i < PLATE_SIZE -> j < PLATE_SIZE ->
     (0 <=? cell p i j)%float = true /\ (cell p i j <? 65536)%float = true) ->
  (forall i j, i < PLATE_SIZE -> j < PLATE_SIZE ->
     String.length (field (cell p i j)) = 9)
  /\ (forall i, i < PLATE_SIZE -> String.length (rendered_row p i) = 100)
  /\ String.length (OutputPlate p outputStream)
     = String.length outputStream + 1000.
Proof.
  intros Hrange.
  assert (forall i j, i < PLATE_SIZE -> j < PLATE_SIZE ->
            String.length (field (cell p i j)) = 9) as Hfield.
  { intros i j Hi Hj. destruct (Hrange i j Hi Hj) as [Hlo Hhi].
    apply field_width_9; assumption. }
  assert (forall i, i < PLATE_SIZE -> String.length (rendered_row p i) = 100) as Hrow.
  { intros i Hi. apply length_rendered_row. intros j Hj. apply Hfield; assumption. }
  split; [exact Hfield|]. split; [exact Hrow|].
  rewrite OutputPlate_rendered, length_append, (length_rendered_plate p Hrow).
  reflexivity.
Qed.

Lemma OutputPlate_columns_witness :
  String.length (OutputPlate initial_plate "Plate:"%string) = 6 + 1000.
Proof.
  refine (proj2 (proj2 (OutputPlate_columns initial_plate "Plate:"%string _))).
  intros i j Hi Hj. rewrite (cell_initial_plate i j Hi Hj). unfold initial_temp.
  destruct (_ && _); split; reflexivity.
Defined.

(** ** The end of [main] *)

Lemma all_cells_spec (f : float -> bool) (p : plate) :
  all_cells f p = true ->
  forall i j, i < PLATE_SIZE -> j < PLATE_SIZE -> f (cell p i j) = true.
Proof.
  unfold all_cells. intros Hall i j Hi Hj.
  rewrite forallb_forall in Hall.
  specialize (Hall i). rewrite forallb_forall in Hall.
  apply Hall; apply in_seq; lia.
Qed.

(** The plate the loop of [main] stops on, evaluated: its temperatures
    lie between 0 and 100. *)
Lemma initial_run_range :
  exists final : driver,
    do_while (Z.to_nat ITERATION_LIMIT)
      (Driver
         (TransferValues newHeatDist oldHeatDist
            (UpdateTemps oldHeatDist newHeatDist (Memory initial_plate initial_plate)))
         false 1)
    = Some final
    /\ hasReachedSteadyState final = true
    /\ all_cells (fun x => (0 <=? x)%float && (x <=? 100)%float)
         (load newHeatDist (mem final)) = true
    /\ all_cells (fun x => (0 <=? x)%float && (x <? 65536)%float)
         (load newHeatDist (mem final)) = true.
Proof.
  eexists. split; [vm_compute; reflexivity|].
  split; [reflexivity|]. split; vm_compute; reflexivity.
Qed.

Section EndOfMain.
Local Open Scope string_scope.

(** Whether the file opens or not, [InitPlateFromTxt] writes to the array
    passed to it only and at most prints. *)
Lemma InitPlateFromTxt_outcome (passedHeatDist : array) (m : memory) (w : world) :
  well_sized (load passedHeatDist m) = true ->
  exists (status : Z) (m' : memory) (text : string),
    InitPlateFromTxt passedHeatDist m w = (status, m', print text w)
    /\ well_sized (load passedHeatDist m') = true
    /\ forall b, b <> passedHeatDist -> load b m' = load b m.
Proof.
  intros Hsz. destruct (Inputplate_txt w) as [fields|] eqn:Hfile.
  - destruct (InitPlateFromTxt_reads passedHeatDist fields m w Hfile Hsz)
      as (m' & Hread & Hsz' & Hframe & _).
    exists 0%Z, m', EmptyString. split; [|split; assumption].
    rewrite Hread. unfold print. rewrite append_empty_r. destruct w; reflexivity.
  - exists 1%Z, m, ("Could not open file numFile.txt." ++ endl).
    split; [|split; [exact Hsz | reflexivity]].
    unfold InitPlateFromTxt. rewrite Hfile. reflexivity.
Qed.

(** [main] when [Hotplate.csv] can be written: the plate [steady] the
    loop stopped on is exported, the array [oldHeatDist] of [loaded] is
    what the import made of it, and the plate printed last is the result
    of the three updates. *)
Lemma main_export_succeeds (m : memory) (w : world) :
  well_sized (load oldHeatDist m) = true ->
  well_sized (load newHeatDist m) = true ->
  csv_opens w = true ->
  exists (final : driver) (loaded : memory) (printed : string),
    do_while (Z.to_nat ITERATION_LIMIT) (Driver (before_loop m) false 1) = Some final
    /\ well_sized (load oldHeatDist loaded) = true
    /\ load newHeatDist loaded = load newHeatDist (mem final)
    /\ main m w =
       Some (0%Z, three_updates loaded,
             World (cout w ++ printed
                      ++ "Printing input plate after 3 updates..." ++ endl
                      ++ rendered_plate (load oldHeatDist (three_updates loaded)))
               true
               (Some (rendered_plate (load newHeatDist (mem final))))
               (Inputplate_txt w)).
Proof.
  intros Hold Hnew Hopen.
  destruct (main_passes_loop m w) as (d & Hrun & Hmain).
  destruct (main_loop_border m d Hold Hnew Hrun) as (Hsame & Hsz & _).
  revert Hmain.
  generalize (text_before_loop (InitPlate newHeatDist (InitPlate oldHeatDist m))
                (UpdateTemps oldHeatDist newHeatDist
                   (InitPlate newHeatDist (InitPlate oldHeatDist m)))).
  intros before Hmain.
  rewrite main_after_loop_export_succeeds in Hmain
    by (rewrite csv_opens_print; exact Hopen).
  cbv zeta in Hmain.
  destruct (InitPlateFromTxt_outcome oldHeatDist (mem d)
              (World (cout (print before w) ++ text_before_export (mem d)) true
                 (Some (OutputPlate (load newHeatDist (mem d)) EmptyString))
                 (Inputplate_txt (print before w))))
    as (status & m' & text & Himport & Hsz' & Hframe);
    [rewrite Hsame; exact Hsz|].
  rewrite Himport in Hmain. cbv beta iota in Hmain.
  exists d, m', (before ++ text_before_export (mem d) ++ text).
  split; [exact Hrun|]. split; [exact Hsz'|].
  split; [apply Hframe; discriminate|].
  rewrite Hmain. unfold print.
  cbn [cout csv_opens Hotplate_csv Inputplate_txt].
  rewrite !OutputPlate_rendered, !append_empty_l, !append_assoc. reflexivity.
Qed.

(** X13. Whenever [Hotplate.csv] can be written, [main] returns the exit
    status 0, and the last thing it prints is the heading of the imported
    plate and a plate whose border is the boundary condition of
    [InitPlate] (100.0 on the top and bottom rows without the corners,
    0.0 elsewhere on the border), whatever [Inputplate.txt] holds and
    whether it can be opened or not: the border values read from the file
    are overwritten by the first copy back. *)
Theorem main_last_plate_border (m : memory) (w : world) :
  well_sized (load oldHeatDist m) = true ->
  well_sized (load newHeatDist m) = true ->
  csv_opens w = true ->
  exists (final : memory) (w' : world) (printed : string),
    main m w = Some (0%Z, final, w')
    /\ cout w' = cout w ++ printed
                 ++ "Printing input plate after 3 updates..." ++ endl
                 ++ rendered_plate (load oldHeatDist final)
    /\ forall i j, border i j = true ->
         cell (load oldHeatDist final) i j =
         if ((i =? 0) || (i =? 9))%nat && negb ((j =? 0) || (j =? 9))%nat
         then 100%float else 0%float.
Proof.
  intros Hold Hnew Hopen.
  destruct (main_export_succeeds m w Hold Hnew Hopen)
    as (d & loaded & printed & Hrun & Hsz' & Hframe & Hmain).
  destruct (main_loop_border m d Hold Hnew Hrun) as (_ & Hsz & Hborder).
  destruct (three_updates_relaxed loaded Hsz') as (_ & _ & Hkept & Hcopied);
    [rewrite Hframe; exact Hsz|].
  eexists. eexists. exists printed.
  split; [exact Hmain|]. split; [apply cout_World|].
  intros i j Hb. rewrite Hcopied by (unfold DESIRED_ITERATIONS; lia).
  rewrite (Hkept i j Hb), Hframe, (Hborder i j Hb).
  apply initial_temp_border, Hb.
Qed.

Lemma main_last_plate_border_witness :
  exists (final : memory) (w' : world),
    main (Memory (uniform 1%float) (uniform 2%float))
      (World EmptyString true None (Some (replicate 100 (number 7%float))))
    = Some (0%Z, final, w')
    /\ cell (load oldHeatDist final) 0 3 = 100%float
    /\ cell (load oldHeatDist final) 3 0 = 0%float.
Proof.
  destruct (main_last_plate_border (Memory (uniform 1%float) (uniform 2%float))
              (World EmptyString true None (Some (replicate 100 (number 7%float))))
              eq_refl eq_refl eq_refl)
    as (final & w' & printed & Hmain & _ & Hborder).
  exists final, w'. split; [exact Hmain|].
  split; [apply (Hborder 0 3 eq_refl) | apply (Hborder 3 0 eq_refl)].
Defined.

(** X14. Whenever [Hotplate.csv] can be written, whatever the arrays
    held at the start, [main] writes to it the plate the steady-state
    loop stopped on, the array [newHeatDist] as the loop left it: every
    temperature of that plate lies between 0.0 and 100.0, so every field
    is nine characters wide, every line of the file has 100 characters
    with its line end, and the file has 1000 characters. *)
Theorem main_csv_file (m : memory) (w : world) :
  well_sized (load oldHeatDist m) = true ->
  well_sized (load newHeatDist m) = true ->
  csv_opens w = true ->
  exists (steady : driver) (final : memory) (w' : world),
    do_while (Z.to_nat ITERATION_LIMIT) (Driver (before_loop m) false 1)
    = Some steady
    /\ hasReachedSteadyState steady = true
    /\ main m w = Some (0%Z, final, w')
    /\ Hotplate_csv w' = Some (rendered_plate (load newHeatDist (mem steady)))
    /\ (forall i j, (i < PLATE_SIZE)%nat -> (j < PLATE_SIZE)%nat ->
          (0 <=? cell (load newHeatDist (mem steady)) i j)%float = true
          /\ (cell (load newHeatDist (mem steady)) i j <=? 100)%float = true)
    /\ (forall i, (i < PLATE_SIZE)%nat ->
          String.length (rendered_row (load newHeatDist (mem steady)) i) = 100%nat)
    /\ String.length (rendered_plate (load newHeatDist (mem steady))) = 1000%nat.
Proof.
  intros Hold Hnew Hopen.
  destruct (main_export_succeeds m w Hold Hnew Hopen)
    as (d & loaded & printed & Hrun & _ & _ & Hmain).
  destruct initial_run_range as (d' & Hrun' & Hsteady & Hrange & Hfits).
  rewrite <- relax_unfold, <- (before_loop_initial m Hold Hnew), Hrun in Hrun'.
  injection Hrun' as <-.
  assert (forall i, (i < PLATE_SIZE)%nat ->
            String.length (rendered_row (load newHeatDist (mem d)) i) = 100%nat)
    as Hrows.
  { intros i Hi. apply length_rendered_row. intros j Hj.
    pose proof (all_cells_spec _ _ Hfits i j Hi Hj) as [Hlo Hhi]%andb_true_iff.
    apply field_width_9; assumption. }
  exists d. eexists. eexists.
  split; [exact Hrun|]. split; [exact Hsteady|].
  split; [exact Hmain|]. split; [apply Hotplate_csv_World|].
  split; [|split; [exact Hrows | apply length_rendered_plate, Hrows]].
  intros i j Hi Hj.
  pose proof (all_cells_spec _ _ Hrange i j Hi Hj) as [Hlo Hhi]%andb_true_iff.
  split; assumption.
Qed.

Lemma main_csv_file_witness :
  exists (steady : driver) (final : memory) (w' : world),
    do_while (Z.to_nat ITERATION_LIMIT)
      (Driver (before_loop (Memory (uniform 1%float) (uniform 2%float))) false 1)
    = Some steady
    /\ main (Memory (uniform 1%float) (uniform 2%float))
         (World EmptyString true None None)
       = Some (0%Z, final, w')
    /\ Hotplate_csv w' = Some (rendered_plate (load newHeatDist (mem steady)))
    /\ String.length (rendered_plate (load newHeatDist (mem steady))) = 1000%nat.
Proof.
  destruct (main_csv_file (Memory (uniform 1%float) (uniform 2%float))
              (World EmptyString true None None) eq_refl eq_refl eq_refl)
    as (steady & final & w' & Hrun & _ & Hmain & Hfile & _ & _ & Hlength).
  exists steady, final, w'.
  split; [exact Hrun|]. split; [exact Hmain|].
  split; [exact Hfile | exact Hlength].
Defined.

End EndOfMain.

(** ** [InitPlate] starts afresh *)

(** X15. [InitPlate] overwrites every cell of the array passed to it and
    nothing else: the plate it leaves does not depend on what the array
    held, the other array is untouched, and a second call changes
    nothing. *)
Theorem InitPlate_overwrites (passedHeatDist : array) (m m' : memory) :
  well_sized (load passedHeatDist m) = true ->
  well_sized (load passedHeatDist m') = true ->
  load passedHeatDist (InitPlate passedHeatDist m)
  = load passedHeatDist (InitPlate passedHeatDist m')
  /\ (forall b, b <> passedHeatDist ->
        load b (InitPlate passedHeatDist m) = load b m)
  /\ InitPlate passedHeatDist (InitPlate passedHeatDist m)
     = InitPlate passedHeatDist m.
Proof.
  intros Hsz Hsz'.
  destruct (InitPlate_cells passedHeatDist m Hsz) as (Hsz1 & Hframe1 & Hcells1).
  destruct (InitPlate_cells passedHeatDist m' Hsz') as (Hsz2 & _ & Hcells2).
  destruct (InitPlate_cells passedHeatDist (InitPlate passedHeatDist m) Hsz1)
    as (Hsz3 & Hframe3 & Hcells3).
  revert Hsz1 Hframe1 Hcells1 Hsz2 Hcells2 Hsz3 Hframe3 Hcells3.
  generalize (InitPlate passedHeatDist (InitPlate passedHeatDist m)).
  generalize (InitPlate passedHeatDist m) (InitPlate passedHeatDist m').
  intros t t' u Hsz1 Hframe1 Hcells1 Hsz2 Hcells2 Hsz3 Hframe3 Hcells3.
  split; [|split; [exact Hframe1|]].
  - apply plate_ext; [exact Hsz1 | exact Hsz2 |].
    intros i j Hi Hj.
    rewrite (Hcells1 i j Hi Hj), (Hcells2 i j Hi Hj). reflexivity.
  - apply memory_ext. intros b.
    assert (b = passedHeatDist \/ b <> passedHeatDist) as [-> | Hne]
      by (destruct b, passedHeatDist; (left; reflexivity) || (right; discriminate));
      [|apply Hframe3, Hne].
    apply plate_ext; [exact Hsz3 | exact Hsz1 |].
    intros i j Hi Hj.
    rewrite (Hcells3 i j Hi Hj), (Hcells1 i j Hi Hj). reflexivity.
Qed.

Lemma InitPlate_overwrites_witness :
  load newHeatDist (InitPlate newHeatDist (Memory (uniform 1%float) (uniform 2%float)))
  = load newHeatDist (InitPlate newHeatDist (Memory (uniform 3%float) (uniform 4%float))).
Proof.
  apply (InitPlate_overwrites newHeatDist
           (Memory (uniform 1%float) (uniform 2%float))
           (Memory (uniform 3%float) (uniform 4%float)));
    reflexivity.
Defined.
